(** * geo_form: the geofenced capture form of [src/pages/index.tsx]

    A shallow embedding of the page component: the [haversine] distance,
    the geolocation callbacks of [getLocation], the capture handlers of
    [CameraCapture] and [Form], and the submit gate of the form.

    JavaScript numbers are IEEE 754 binary64 values; they are modelled by
    [spec_float] with precision 53 and maximal exponent 1024, whose single
    NaN matches the NaN of the language.  [Math.sin], [Math.cos] and
    [Math.atan2] are "implementation-approximated" in ECMA-262, so they are
    fields of a [Platform] and the theorems state which of their properties
    they rely on.  JavaScript strings are sequences of UTF-16 code units. *)

From Stdlib Require Import ZArith List Bool Lia String Ascii DecimalString.
From Stdlib Require Import Floats.SpecFloat.
From Stdlib Require Import Reals Lra.
Import ListNotations.

Local Open Scope Z_scope.

(** ** Numbers *)

Module Num.

Definition prec : Z := 53.
Definition emax : Z := 1024.

Definition number : Type := spec_float.

Definition fadd : number -> number -> number := SFadd prec emax.
Definition fsub : number -> number -> number := SFsub prec emax.
Definition fmul : number -> number -> number := SFmul prec emax.
Definition fdiv : number -> number -> number := SFdiv prec emax.
Definition fsqrt : number -> number := SFsqrt prec emax.

(** [x <= y] and [x == y] on numbers: false as soon as one side is NaN. *)
Definition fle : number -> number -> bool := SFleb.
Definition flt : number -> number -> bool := SFltb.
Definition feq : number -> number -> bool := SFeqb.

(** An integer literal of the source text. *)
Definition of_Z (z : Z) : number := binary_normalize prec emax z 0 false.

(** A decimal literal [n / 10^k] of the source text: the binary64 value
    nearest to it, obtained by one correctly rounded division. *)
Definition of_decimal (n : Z) (k : nat) : number :=
  fdiv (of_Z n) (of_Z (10 ^ Z.of_nat k)).

Definition pos_zero : number := S754_zero false.
Definition neg_zero : number := S754_zero true.
Definition NaN : number := S754_nan.

(** [Math.PI], the binary64 value 0x400921FB54442D18. *)
Definition PI64 : number := S754_finite false 7074237752028440 (-51).

Definition is_nan (x : number) : bool :=
  match x with S754_nan => true | _ => false end.

(** Neither NaN nor an infinity. *)
Definition is_finite (x : number) : bool :=
  match x with
  | S754_zero _ | S754_finite _ _ _ => true
  | _ => false
  end.

Definition valid (x : number) : bool := valid_binary prec emax x.

(** The real number a finite binary64 value stands for. *)
Definition real_value (x : number) : R :=
  match x with
  | S754_finite s m e =>
      ((if s then -1 else 1) * IZR (Zpos m) * powerRZ 2 e)%R
  | _ => 0%R
  end.

End Num.
Import Num.

(** ** Strings *)

Module Str.

(** A string is its sequence of UTF-16 code units. *)
Definition jsstring : Type := list N.

(** A literal of the source text (ASCII only). *)
Definition lit (s : string) : jsstring :=
  List.map N_of_ascii (list_ascii_of_string s).

(** ECMA-262 WhiteSpace and LineTerminator code points: what
    [String.prototype.trim] strips. *)
Definition is_space (c : N) : bool :=
  match c with
  | 9 | 10 | 11 | 12 | 13 | 32 | 160 | 5760
  | 8192 | 8193 | 8194 | 8195 | 8196 | 8197 | 8198 | 8199 | 8200 | 8201 | 8202
  | 8232 | 8233 | 8239 | 8287 | 12288 | 65279 => true
  | _ => false
  end%N.

Fixpoint trimStart (s : jsstring) : jsstring :=
  match s with
  | [] => []
  | c :: r => if is_space c then trimStart r else s
  end.

Definition trimEnd (s : jsstring) : jsstring := rev (trimStart (rev s)).

Definition trim (s : jsstring) : jsstring := trimEnd (trimStart s).

Definition is_empty (s : jsstring) : bool :=
  match s with [] => true | _ => false end.

(** [s.trim() !== ''] *)
Definition non_blank (s : jsstring) : bool := negb (is_empty (trim s)).

(** [s.startsWith(p)] *)
Fixpoint startsWith (s p : jsstring) {struct p} : bool :=
  match p, s with
  | [], _ => true
  | _ :: _, [] => false
  | c :: p', d :: s' => N.eqb c d && startsWith s' p'
  end.

(** A string in a boolean position: true unless empty. *)
Definition truthy (s : jsstring) : bool := negb (is_empty s).

End Str.
Import Str.

(** ** The arithmetic the distance function is written in *)

(** [haversine] uses the four operations, integer literals, [Math.PI] and
    four functions of [Math].  It is transcribed once, over this signature,
    and read at two instances: binary64 (what the program computes) and the
    real numbers (what the formula denotes). *)
Class Arith (T : Type) : Type := {
  add : T -> T -> T;
  sub : T -> T -> T;
  mul : T -> T -> T;
  div : T -> T -> T;
  int : Z -> T;
  Math_PI : T;
  Math_sin : T -> T;
  Math_cos : T -> T;
  Math_sqrt : T -> T;
  Math_atan2 : T -> T -> T
}.

Section Haversine.
Context {T : Type} `{Arith T}.

(** [const toRad = (x) => (x * Math.PI) / 180] *)
Definition toRad (x : T) : T := div (mul x Math_PI) (int 180).

(** [const R = 6371e3] *)
Definition R_earth : T := int 6371000.

(** The value of [a] in [haversine]. *)
Definition haversine_a (lat1 lon1 lat2 lon2 : T) : T :=
  let dLat := toRad (sub lat2 lat1) in
  let dLon := toRad (sub lon2 lon1) in
  add
    (mul (Math_sin (div dLat (int 2))) (Math_sin (div dLat (int 2))))
    (mul
       (mul
          (mul (Math_cos (toRad lat1)) (Math_cos (toRad lat2)))
          (Math_sin (div dLon (int 2))))
       (Math_sin (div dLon (int 2)))).

Definition haversine (lat1 lon1 lat2 lon2 : T) : T :=
  let a := haversine_a lat1 lon1 lat2 lon2 in
  let c := mul (int 2) (Math_atan2 (Math_sqrt a) (Math_sqrt (sub (int 1) a))) in
  mul R_earth c.

End Haversine.

(** ** The platform *)

(** What is drawn on the capture canvas. *)
Inductive canvas_op : Type :=
| DrawImage (x y : Z)
| SetFont (font : jsstring)
| SetFillStyle (style : jsstring)
| FillRect (x y w h : Z)
| FillText (text : jsstring) (x y : Z).

Record Canvas : Type := {
  width : Z;
  height : Z;
  drawn : list canvas_op
}.

(** What the browser supplies and the language does not fix: the
    approximated functions of [Math], number formatting and the canvas
    encoder. *)
Record Platform : Type := {
  p_sin : number -> number;
  p_cos : number -> number;
  p_atan2 : number -> number -> number;
  (** the text of [Math.round(d)] in a template literal *)
  p_round_text : number -> jsstring;
  (** [x.toFixed(5)] *)
  p_toFixed5 : number -> jsstring;
  (** [canvas.toDataURL('image/jpeg', 0.92)] *)
  p_toDataURL : Canvas -> jsstring
}.

(** Binary64 arithmetic on a platform.  [Math.sqrt] is the correctly
    rounded square root. *)
#[global] Instance binary64 (P : Platform) : Arith number := {
  add := fadd;
  sub := fsub;
  mul := fmul;
  div := fdiv;
  int := of_Z;
  Math_PI := PI64;
  Math_sin := p_sin P;
  Math_cos := p_cos P;
  Math_sqrt := fsqrt;
  Math_atan2 := p_atan2 P
}.

(** Exact arithmetic. *)
Module Exact.

Local Open Scope R_scope.

(** The two-argument arctangent on the reals. *)
Definition atan2 (y x : R) : R :=
  if Rlt_dec 0 x then atan (y / x)
  else if Rlt_dec x 0 then
    (if Rle_dec 0 y then atan (y / x) + PI else atan (y / x) - PI)
  else if Rlt_dec 0 y then PI / 2
  else if Rlt_dec y 0 then - (PI / 2)
  else 0.

#[global] Instance reals : Arith R := {
  add := Rplus;
  sub := Rminus;
  mul := Rmult;
  div := Rdiv;
  int := IZR;
  Math_PI := PI;
  Math_sin := sin;
  Math_cos := cos;
  Math_sqrt := sqrt;
  Math_atan2 := atan2
}.

(** The great-circle distance as the specification writes it: inputs in
    degrees, converted to radians; [dlat] and [dlon] the differences of the
    radian values. *)
Definition radians (x : R) : R := x * PI / 180.

Definition great_circle_formula (lat1 lon1 lat2 lon2 : R) : R :=
  let dlat := radians lat2 - radians lat1 in
  let dlon := radians lon2 - radians lon1 in
  let a :=
    Rsqr (sin (dlat / 2)) +
    cos (radians lat1) * cos (radians lat2) * Rsqr (sin (dlon / 2)) in
  2 * 6371000 * atan2 (sqrt a) (sqrt (1 - a)).

End Exact.

(** ** The page *)

Record Coord : Type := { lat : number; lon : number }.

(** [const GEOFENCE_RADIUS_METERS = 150] *)
Definition GEOFENCE_RADIUS_METERS : number := of_Z 150.

Record Fields : Type := {
  name : jsstring;
  email : jsstring;
  comments : jsstring
}.

(** The seven [useState] cells of [Form]. *)
Record FormState : Type := {
  fields : Fields;
  images : list jsstring;
  location : option Coord;
  geoAllowed : bool;
  geoError : jsstring;
  submitting : bool;
  geoLoading : bool
}.

Definition setFields (f : Fields) (s : FormState) : FormState :=
  {| fields := f; images := images s; location := location s;
     geoAllowed := geoAllowed s; geoError := geoError s;
     submitting := submitting s; geoLoading := geoLoading s |}.

Definition setImages (f : list jsstring -> list jsstring) (s : FormState) : FormState :=
  {| fields := fields s; images := f (images s); location := location s;
     geoAllowed := geoAllowed s; geoError := geoError s;
     submitting := submitting s; geoLoading := geoLoading s |}.

Definition setLocation (l : option Coord) (s : FormState) : FormState :=
  {| fields := fields s; images := images s; location := l;
     geoAllowed := geoAllowed s; geoError := geoError s;
     submitting := submitting s; geoLoading := geoLoading s |}.

Definition setGeoAllowed (b : bool) (s : FormState) : FormState :=
  {| fields := fields s; images := images s; location := location s;
     geoAllowed := b; geoError := geoError s;
     submitting := submitting s; geoLoading := geoLoading s |}.

Definition setGeoError (e : jsstring) (s : FormState) : FormState :=
  {| fields := fields s; images := images s; location := location s;
     geoAllowed := geoAllowed s; geoError := e;
     submitting := submitting s; geoLoading := geoLoading s |}.

Definition setSubmitting (b : bool) (s : FormState) : FormState :=
  {| fields := fields s; images := images s; location := location s;
     geoAllowed := geoAllowed s; geoError := geoError s;
     submitting := b; geoLoading := geoLoading s |}.

Definition setGeoLoading (b : bool) (s : FormState) : FormState :=
  {| fields := fields s; images := images s; location := location s;
     geoAllowed := geoAllowed s; geoError := geoError s;
     submitting := submitting s; geoLoading := b |}.

(** The initial values of the [useState] cells. *)
Definition initial : FormState :=
  {| fields := {| name := []; email := []; comments := [] |};
     images := []; location := None; geoAllowed := false; geoError := [];
     submitting := false; geoLoading := false |}.

(** Statements of a handler run in order: [s |> f |> g] is [g (f s)]. *)
Notation "s |> f" := (f s) (at level 45, left associativity, only parsing).

(** The two inputs wired to [handleFieldChange]. *)
Inductive input : Type := NameInput | EmailInput.

(** The video element behind [videoRef] and what [handleCapture] of
    [CameraCapture] reads from its surroundings. *)
Record Video : Type := { videoWidth : Z; videoHeight : Z }.

Record CameraEnv : Type := {
  videoRef : option Video;
  (** whether [canvas.getContext('2d')] is non-null *)
  has_context : bool;
  (** [new Date().toLocaleString()] *)
  now_text : jsstring
}.

(** What one call of [handleCapture] of [CameraCapture] did: the canvas
    operations it performed and the string it handed to [onCapture] and
    [processImageForAI], if any. *)
Record Capture : Type := {
  rendered : list canvas_op;
  captured : option jsstring
}.

Definition geoDeniedMessage : jsstring :=
  lit "Geolocation permission denied or unavailable. Please enable location and try again.".

(** ** The camera component *)

Module CameraCapture.

(** [handleCapture]: returns at once without a video element or without a
    coordinate, and before drawing when the canvas has no 2d context;
    otherwise draws the frame and the overlay, encodes the canvas and hands
    the data URL to [onCapture] and to [processImageForAI]. *)
Definition handleCapture (P : Platform) (env : CameraEnv) (loc : option Coord) : Capture :=
  match videoRef env, loc with
  | Some video, Some l =>
      let w := videoWidth video in
      let h := videoHeight video in
      if has_context env then
        let ops :=
          [ DrawImage 0 0;
            SetFont (lit "24px Arial");
            SetFillStyle (lit "rgba(0,0,0,0.5)");
            FillRect 0 (h - 70) w 70;
            SetFillStyle (lit "white");
            FillText (lit "Time: " ++ now_text env) 10 (h - 45);
            FillText (lit "Lat: " ++ p_toFixed5 P (lat l)) 10 (h - 20);
            FillText (lit "Lon: " ++ p_toFixed5 P (lon l)) 220 (h - 20) ] in
        let dataUrl := p_toDataURL P {| width := w; height := h; drawn := ops |} in
        {| rendered := ops; captured := Some dataUrl |}
      else {| rendered := []; captured := None |}
  | _, _ => {| rendered := []; captured := None |}
  end.

(** The [disabled] attribute of the Capture Photo button. *)
Definition capture_disabled (loc : option Coord) : bool :=
  match loc with None => true | Some _ => false end.

End CameraCapture.

(** ** The form component *)

Section Page.
Variable P : Platform.
(** [GEOFENCE_CENTER] of [../geofenceConfig], a module outside this file. *)
Variable GEOFENCE_CENTER : Coord.

Definition distance (lat1 lon1 lat2 lon2 : number) : number :=
  haversine (H := binary64 P) lat1 lon1 lat2 lon2.

(** The first statements of [getLocation], before the browser answers. *)
Definition getLocation (s : FormState) : FormState :=
  s |> setGeoLoading true |> setGeoError [].

Definition farMessage (dist : number) : jsstring :=
  lit "You are " ++ p_round_text P dist ++ lit "m from the allowed location.".

(** The success callback of [getCurrentPosition]. *)
Definition onPosition (latitude longitude : number) (s : FormState) : FormState :=
  let dist :=
    distance latitude longitude (lat GEOFENCE_CENTER) (lon GEOFENCE_CENTER) in
  s |> setLocation (Some {| lat := latitude; lon := longitude |})
    |> setGeoAllowed (fle dist GEOFENCE_RADIUS_METERS)
    |> setGeoError (if fle dist GEOFENCE_RADIUS_METERS then [] else farMessage dist)
    |> setGeoLoading false.

(** The error callback of [getCurrentPosition]. *)
Definition onPositionError (s : FormState) : FormState :=
  s |> setGeoError geoDeniedMessage
    |> setGeoAllowed false
    |> setGeoLoading false.

(** [handleFieldChange] on the input named [i]. *)
Definition handleFieldChange (i : input) (v : jsstring) (s : FormState) : FormState :=
  match i with
  | NameInput =>
      setFields {| name := v; email := email (fields s); comments := comments (fields s) |} s
  | EmailInput =>
      setFields {| name := name (fields s); email := v; comments := comments (fields s) |} s
  end.

(** The [onChange] of the message textarea. *)
Definition handleMessageChange (v : jsstring) (s : FormState) : FormState :=
  setFields {| name := name (fields s); email := email (fields s); comments := v |} s.

(** [handleCapture] of [Form], the [onCapture] of the camera. *)
Definition handleCapture (img : jsstring) (s : FormState) : FormState :=
  if truthy img && startsWith img (lit "data:image")
  then setImages (fun prev => prev ++ [img]) s
  else s.

(** The synchronous part of [handleSubmit]; the timer it sets is counted by
    [run_with_timers] and fires as [SubmitTimerFired]. *)
Definition handleSubmit (s : FormState) : FormState :=
  s |> setSubmitting true.

(** [isFormValid] *)
Definition isFormValid (s : FormState) : bool :=
  non_blank (name (fields s)) &&
  non_blank (email (fields s)) &&
  non_blank (comments (fields s)) &&
  (0 <? Z.of_nat (List.length (images s))).

(** The [disabled] attribute of the submit button. *)
Definition submit_disabled (s : FormState) : bool :=
  negb (geoAllowed s) || submitting s || negb (isFormValid s).

(** The Retry Location button carries no [disabled] attribute. *)
Definition retry_disabled (s : FormState) : bool := false.

(** The status line under the gallery. *)
Definition status_text (s : FormState) : jsstring :=
  if geoLoading s then lit "Getting location..."
  else if truthy (geoError s) then geoError s
  else lit "Location OK".

(** *** Events of the page *)

Inductive event : Type :=
| ClickRetry
| PositionOk (latitude longitude : number)
| PositionFailed
| ChangeInput (i : input) (v : jsstring)
| ChangeMessage (v : jsstring)
| ClickCapture (env : CameraEnv)
| ClickSubmit
| SubmitTimerFired.

(** The state once the component is mounted: the effect of the first
    render calls [getLocation].  The first render itself shows [initial];
    traces start after its effect. *)
Definition mounted : FormState := getLocation initial.

(** One task of the event loop.  A click reaches its handler only if the
    button is not disabled; [ClickSubmit] is a click that the browser's own
    validation of the [required] and [type="email"] inputs lets through.
    When the timer set by [handleSubmit] fires the page reloads: a fresh
    component is mounted. *)
Definition step (s : FormState) (e : event) : FormState :=
  match e with
  | ClickRetry => if retry_disabled s then s else getLocation s
  | PositionOk la lo => onPosition la lo s
  | PositionFailed => onPositionError s
  | ChangeInput i v => handleFieldChange i v s
  | ChangeMessage v => handleMessageChange v s
  | ClickCapture env =>
      if CameraCapture.capture_disabled (location s) then s
      else
        match captured (CameraCapture.handleCapture P env (location s)) with
        | Some img => handleCapture img s
        | None => s
        end
  | ClickSubmit => if submit_disabled s then s else handleSubmit s
  | SubmitTimerFired => mounted
  end.

Definition run (s : FormState) (t : list event) : FormState :=
  fold_left step t s.

(** Calls of [navigator.geolocation.getCurrentPosition] made while the
    event is handled. *)
Definition requests_issued (s : FormState) (e : event) : nat :=
  match e with
  | ClickRetry => if retry_disabled s then 0%nat else 1%nat
  | SubmitTimerFired => 1%nat
  | _ => 0%nat
  end.

Definition submit_permitted (s : FormState) : bool := negb (submit_disabled s).

(** *** What a trace says about the location requests *)

(** How a location request ended. *)
Inductive geo_result : Type :=
| Located (latitude longitude : number)
| Failed.

(** The flag and the message the callbacks derive from a result. *)
Definition result_allowed (r : geo_result) : bool :=
  match r with
  | Located la lo =>
      fle (distance la lo (lat GEOFENCE_CENTER) (lon GEOFENCE_CENTER))
          GEOFENCE_RADIUS_METERS
  | Failed => false
  end.

Definition result_error (r : geo_result) : jsstring :=
  match r with
  | Located la lo =>
      let dist := distance la lo (lat GEOFENCE_CENTER) (lon GEOFENCE_CENTER) in
      if fle dist GEOFENCE_RADIUS_METERS then [] else farMessage dist
  | Failed => geoDeniedMessage
  end.

(** The functions below read a trace backwards, most recent event first,
    and stop at a reload. *)
Fixpoint last_completed_from (rt : list event) : option geo_result :=
  match rt with
  | [] => None
  | PositionOk la lo :: _ => Some (Located la lo)
  | PositionFailed :: _ => Some Failed
  | SubmitTimerFired :: _ => None
  | _ :: r => last_completed_from r
  end.

Fixpoint last_located_from (rt : list event) : option Coord :=
  match rt with
  | [] => None
  | PositionOk la lo :: _ => Some {| lat := la; lon := lo |}
  | SubmitTimerFired :: _ => None
  | _ :: r => last_located_from r
  end.

(** Whether a request was issued after the last answer: by the mount, a
    reload or a retry. *)
Fixpoint awaiting_from (rt : list event) : bool :=
  match rt with
  | [] => true
  | ClickRetry :: _ | SubmitTimerFired :: _ => true
  | PositionOk _ _ :: _ | PositionFailed :: _ => false
  | _ :: r => awaiting_from r
  end.

(** The result of the most recent completed request of the trace. *)
Definition last_completed (t : list event) : option geo_result :=
  last_completed_from (rev t).

(** The coordinate of the most recent successful request. *)
Definition last_located (t : list event) : option Coord :=
  last_located_from (rev t).

Definition awaiting (t : list event) : bool := awaiting_from (rev t).

(** Whether the distance from the stored coordinate to the centre is
    within the radius. *)
Definition within_fence (s : FormState) : bool :=
  match location s with
  | Some c =>
      fle (distance (lat c) (lon c) (lat GEOFENCE_CENTER) (lon GEOFENCE_CENTER))
          GEOFENCE_RADIUS_METERS
  | None => false
  end.

(** The conditions of the specification's invariant: three non-blank
    fields, an image, and a stored coordinate within the radius. *)
Definition fields_images_distance (s : FormState) : bool :=
  non_blank (name (fields s)) &&
  non_blank (email (fields s)) &&
  non_blank (comments (fields s)) &&
  negb (Nat.eqb (List.length (images s)) 0) &&
  within_fence s.

End Page.

(** ** A reference platform *)

(** A small platform on which the page can be run.  [Math.sin] and
    [Math.cos] are the approximations [x] and [1], [Math.atan2(y, x)] is
    [y / x] moved to the quadrant of [(x, y)]; all three take the values
    ECMA-262 fixes at zeros, infinities and NaN.  Rounding and formatting are
    computed on the exact value of the number. *)
Module Coarse.

Definition sin (x : number) : number :=
  match x with
  | S754_infinity _ => NaN
  | _ => x
  end.

Definition cos (x : number) : number :=
  match x with
  | S754_nan | S754_infinity _ => NaN
  | _ => of_Z 1
  end.

Definition sign_bit (x : number) : bool :=
  match x with
  | S754_zero s | S754_infinity s | S754_finite s _ _ => s
  | S754_nan => false
  end.

Definition half_pi : number := fdiv PI64 (of_Z 2).
Definition quarter_pi : number := fdiv PI64 (of_Z 4).
Definition three_quarter_pi : number := fdiv (fmul (of_Z 3) PI64) (of_Z 4).

Definition with_sign (s : bool) (v : number) : number :=
  if s then SFopp v else v.

Definition atan2 (y x : number) : number :=
  match y, x with
  | S754_nan, _ | _, S754_nan => NaN
  | S754_infinity sy, S754_infinity sx =>
      with_sign sy (if sx then three_quarter_pi else quarter_pi)
  | S754_infinity sy, _ => with_sign sy half_pi
  | _, _ =>
      if flt pos_zero x then fdiv y x
      else if flt x pos_zero then
        (if sign_bit y then fsub (fdiv y x) PI64 else fadd (fdiv y x) PI64)
      else if flt pos_zero y then half_pi
      else if flt y pos_zero then SFopp half_pi
      else if sign_bit x then with_sign (sign_bit y) PI64
      else y
  end.

(** [Math.round]: [floor (x + 1/2)] on the exact value. *)
Definition round (x : number) : option Z :=
  match x with
  | S754_zero _ => Some 0
  | S754_finite s m e =>
      let sm := if s then Zneg m else Zpos m in
      Some (if 0 <=? e then sm * 2 ^ e
            else (2 * sm + 2 ^ (- e)) / 2 ^ (- e + 1))
  | _ => None
  end.

Definition decimal (z : Z) : jsstring :=
  lit (DecimalString.NilZero.string_of_int (Z.to_int z)).

(** The text of [Math.round(x)], for magnitudes below [10^21]. *)
Definition round_text (x : number) : jsstring :=
  match x with
  | S754_nan => lit "NaN"
  | S754_infinity s => if s then lit "-Infinity" else lit "Infinity"
  | _ =>
      match round x with
      | Some n => decimal n
      | None => lit "NaN"
      end
  end.

(** The nearest integer to [|x| * 10^5], ties upwards. *)
Definition scaled_magnitude (x : number) : option Z :=
  match x with
  | S754_zero _ => Some 0
  | S754_finite _ m e =>
      Some (if 0 <=? e then Zpos m * 2 ^ e * 100000
            else (2 * Zpos m * 100000 + 2 ^ (- e)) / 2 ^ (- e + 1))
  | _ => None
  end.

Definition pad_left (n : nat) (s : jsstring) : jsstring :=
  List.repeat 48%N (n - List.length s) ++ s.

(** [x.toFixed(5)], for magnitudes below [10^21]. *)
Definition toFixed5 (x : number) : jsstring :=
  match scaled_magnitude x with
  | Some n =>
      (match x with S754_finite true _ _ => lit "-" | _ => [] end) ++
      decimal (n / 100000) ++ lit "." ++ pad_left 5 (decimal (n mod 100000))
  | None => round_text x
  end.

Definition op_text (o : canvas_op) : jsstring :=
  match o with
  | FillText t _ _ => t
  | _ => []
  end.

(** An empty canvas encodes as ["data:,"]. *)
Definition toDataURL (c : Canvas) : jsstring :=
  if (width c =? 0) || (height c =? 0) then lit "data:,"
  else lit "data:image/jpeg;base64," ++ List.concat (List.map op_text (drawn c)).

Definition platform : Platform :=
  {| p_sin := sin; p_cos := cos; p_atan2 := atan2;
     p_round_text := round_text; p_toFixed5 := toFixed5;
     p_toDataURL := toDataURL |}.

(** The fixture of the specification: a fence centred at (0, 0). *)
Definition center : Coord := {| lat := pos_zero; lon := pos_zero |}.

Definition camera : CameraEnv :=
  {| videoRef := Some {| videoWidth := 640; videoHeight := 480 |};
     has_context := true;
     now_text := lit "1/1/2025, 12:00:00 PM" |}.

End Coarse.

(** ** Assumptions on the platform *)

(** ECMA-262 leaves the values of [Math.sin], [Math.cos] and [Math.atan2] to
    the implementation except at a few arguments.  The properties below are
    what the theorems on [haversine] ask of a platform. *)

(** [Math.sin(-x)] is [-Math.sin(x)]. *)
Definition sin_odd (P : Platform) : Prop :=
  forall x : number, p_sin P (SFopp x) = SFopp (p_sin P x).

(** [Math.sin(+0)] is [+0] (ECMA-262, Math.sin). *)
Definition sin_zero (P : Platform) : Prop :=
  p_sin P pos_zero = pos_zero.

(** [Math.atan2(+0, x)] is [+0] for [x > 0] (ECMA-262, Math.atan2). *)
Definition atan2_zero (P : Platform) : Prop :=
  forall x : number, flt pos_zero x = true -> p_atan2 P pos_zero x = pos_zero.

(** [Math.cos] of a finite number is a binary64 number between -1 and 1. *)
Definition cos_range (P : Platform) : Prop :=
  forall x : number,
    is_finite x = true ->
    valid (p_cos P x) = true /\ fle (SFabs (p_cos P x)) (of_Z 1) = true.

(** A binary64 number of magnitude at most [bound]. *)
Definition in_range (bound : Z) (x : number) : bool :=
  valid x && fle (SFabs x) (of_Z bound).

(** A latitude within 90 degrees and a longitude within 180 degrees. *)
Definition valid_coordinate (latitude longitude : number) : bool :=
  in_range 90 latitude && in_range 180 longitude.

(** ** Auxiliary notions *)

(** The state reached on the reference platform when a visitor standing on
    the centre fills the three fields, captures a photo and presses Submit. *)
Definition submitted_at_center : FormState :=
  run Coarse.platform Coarse.center mounted
    [ PositionOk pos_zero pos_zero;
      ChangeInput NameInput (lit "Ann");
      ChangeInput EmailInput (lit "ann@example.org");
      ChangeMessage (lit "hello");
      ClickCapture Coarse.camera;
      ClickSubmit ].

(** [Math.sin(toRad(d) / 2)] in binary64. *)
Definition half_sine (P : Platform) (d : number) : number :=
  p_sin P (fdiv (fdiv (fmul d PI64) (of_Z 180)) (of_Z 2)).

(** An image of the list is a data URL of an image. *)
Definition data_image (img : jsstring) : Prop :=
  startsWith img (lit "data:image") = true.

(** A zero, or a finite number with mantissa below [2^D] and exponent at
    most [E]. *)
Definition small (D E : Z) (x : number) : Prop :=
  match x with
  | S754_zero _ => True
  | S754_finite _ m e => Zpos m < 2 ^ D /\ e <= E
  | _ => False
  end.

(** ** Notions used by the further properties *)

(** [Math.sin] of NaN and of the infinities is NaN (ECMA-262, Math.sin). *)
Definition sin_non_finite (P : Platform) : Prop :=
  forall x : number, is_finite x = false -> p_sin P x = NaN.

(** [Math.atan2] is NaN as soon as one argument is NaN (ECMA-262,
    Math.atan2). *)
Definition atan2_nan (P : Platform) : Prop :=
  forall y x : number, is_nan y || is_nan x = true -> p_atan2 P y x = NaN.

(** A canvas without pixels encodes as ["data:,"] (HTML, the canvas
    element's [toDataURL]). *)
Definition empty_canvas_url (P : Platform) : Prop :=
  forall c : Canvas,
    width c = 0 \/ height c = 0 -> p_toDataURL P c = lit "data:,".

(** Clicks on Capture Photo in a trace since the last reload. *)
Fixpoint capture_clicks_from (rt : list event) : nat :=
  match rt with
  | [] => O
  | SubmitTimerFired :: _ => O
  | ClickCapture _ :: r => S (capture_clicks_from r)
  | _ :: r => capture_clicks_from r
  end.

Definition capture_clicks (t : list event) : nat := capture_clicks_from (rev t).

(** ** The camera session *)

(** The state of [CameraCapture] and the effect that opens the camera.  The
    effect is declared with the dependency list [[capturing]]: it runs after
    the first render and after every render in which [capturing] changed,
    the cleanup of its previous run being called first; the cleanup is also
    called when the component is unmounted.  The cleanup is a closure: the
    [stream] it reads is the one of the render in which the effect ran. *)
Module CameraSession.

Definition track : Type := nat.

(** A media stream, as the list [getTracks()] returns. *)
Definition MediaStream : Type := list track.

(** The three [useState] cells. *)
Record Cells : Type := {
  stream : option MediaStream;
  error : jsstring;
  capturing : bool
}.

Definition setStream (m : option MediaStream) (c : Cells) : Cells :=
  {| stream := m; error := error c; capturing := capturing c |}.

Definition setError (e : jsstring) (c : Cells) : Cells :=
  {| stream := stream c; error := e; capturing := capturing c |}.

Definition setCapturing (b : bool) (c : Cells) : Cells :=
  {| stream := stream c; error := error c; capturing := b |}.

Definition initial : Cells :=
  {| stream := None; error := []; capturing := false |}.

Definition cameraDeniedMessage : jsstring :=
  lit "Camera access denied or unavailable.".

(** One run of the effect in a render with cells [c]: whether it calls
    [getUserMedia], and the tracks its cleanup stops when called later
    ([None]: the effect returned no cleanup). *)
Record EffectRun : Type := {
  calls_getUserMedia : bool;
  cleanup_stops : option (list track)
}.

Definition effect (c : Cells) : EffectRun :=
  if negb (capturing c) then
    {| calls_getUserMedia := false; cleanup_stops := None |}
  else
    {| calls_getUserMedia := true;
       cleanup_stops :=
         Some (match stream c with Some m => m | None => [] end) |}.

(** A mounted component with what surrounds it: the video element's
    [srcObject], the cleanup registered by the last run of the effect, the
    promises of [getUserMedia] not yet settled, and two counters of what was
    done so far. *)
Record Instance : Type := {
  cells : Cells;
  srcObject : option MediaStream;
  cleanup : option (list track);
  alive : bool;
  pending : nat;
  requested : nat;
  stopped : list track
}.

Definition tracks_of (c : option (list track)) : list track :=
  match c with Some l => l | None => [] end.

(** The first render and its effect. *)
Definition mount : Instance :=
  let e := effect initial in
  {| cells := initial; srcObject := None; cleanup := cleanup_stops e;
     alive := true;
     pending := if calls_getUserMedia e then 1 else 0;
     requested := if calls_getUserMedia e then 1 else 0;
     stopped := [] |}.

(** A render with new cells; the effect runs again only if [capturing]
    changed. *)
Definition rerender (c : Cells) (i : Instance) : Instance :=
  if Bool.eqb (capturing (cells i)) (capturing c) then
    {| cells := c; srcObject := srcObject i; cleanup := cleanup i;
       alive := alive i; pending := pending i; requested := requested i;
       stopped := stopped i |}
  else
    let e := effect c in
    {| cells := c; srcObject := srcObject i; cleanup := cleanup_stops e;
       alive := alive i;
       pending := if calls_getUserMedia e then S (pending i) else pending i;
       requested := if calls_getUserMedia e then S (requested i) else requested i;
       stopped := stopped i ++ tracks_of (cleanup i) |}.

(** The Open Live Camera button is rendered while [capturing] is false, the
    video element and the Capture Photo button while it is true. *)
Definition shows_open_button (i : Instance) : bool :=
  alive i && negb (capturing (cells i)).

Definition shows_video (i : Instance) : bool :=
  alive i && capturing (cells i).

Inductive event : Type :=
| ClickOpen
| MediaGranted (m : MediaStream)
| MediaDenied
| Unmount.

Definition settle (i : Instance) : Instance :=
  {| cells := cells i; srcObject := srcObject i; cleanup := cleanup i;
     alive := alive i; pending := Nat.pred (pending i);
     requested := requested i; stopped := stopped i |}.

Definition attach (m : MediaStream) (i : Instance) : Instance :=
  {| cells := cells i; srcObject := Some m; cleanup := cleanup i;
     alive := alive i; pending := pending i; requested := requested i;
     stopped := stopped i |}.

(** One task of the event loop.  A promise settles only if one is pending;
    on an unmounted component the state setters do nothing and
    [videoRef.current] is null. *)
Definition step (i : Instance) (e : event) : Instance :=
  match e with
  | ClickOpen =>
      if shows_open_button i then rerender (setCapturing true (cells i)) i else i
  | MediaGranted m =>
      if Nat.eqb (pending i) 0 then i
      else if alive i then
        let i1 := rerender (setStream (Some m) (cells i)) (settle i) in
        if shows_video i then attach m i1 else i1
      else settle i
  | MediaDenied =>
      if Nat.eqb (pending i) 0 then i
      else if alive i then rerender (setError cameraDeniedMessage (cells i)) (settle i)
      else settle i
  | Unmount =>
      if alive i then
        {| cells := cells i; srcObject := None; cleanup := None;
           alive := false; pending := pending i; requested := requested i;
           stopped := stopped i ++ tracks_of (cleanup i) |}
      else i
  end.

Definition run (t : list event) : Instance := fold_left step t mount.

(** What holds of every instance a trace can reach. *)
Definition invariant (i : Instance) : Prop :=
  stopped i = [] /\
  tracks_of (cleanup i) = [] /\
  (requested i <= 1)%nat /\
  (pending i <= requested i)%nat /\
  (capturing (cells i) = false ->
   requested i = O /\ stream (cells i) = None /\ error (cells i) = []) /\
  (capturing (cells i) = true -> requested i = 1%nat) /\
  (pending i = 1%nat -> stream (cells i) = None /\ error (cells i) = []) /\
  (error (cells i) = [] \/
   error (cells i) = cameraDeniedMessage /\ stream (cells i) = None) /\
  (alive i = true -> srcObject i = stream (cells i)).

End CameraSession.

(** ** A platform with correctly rounded values *)

(** The reference platform, with sine and cosine replaced by the correctly
    rounded binary64 values at the arguments that occur in the distance
    between (2.5, 0) and (-2.5, 180): [0.04363323129985824], which is
    [toRad(2.5)] and half of [toRad(5)], and [Math.PI / 2]. *)
Module Rounded.

Definition magnitude_is (m : positive) (e : Z) (x : number) : bool :=
  match x with
  | S754_finite _ m' e' => Pos.eqb m' m && Z.eqb e' e
  | _ => false
  end.

Definition sin (x : number) : number :=
  if magnitude_is 6288211335136391 (-57) x then
    Coarse.with_sign (Coarse.sign_bit x) (S754_finite false 6286216213909009 (-57))
  else if magnitude_is 7074237752028440 (-52) x then
    Coarse.with_sign (Coarse.sign_bit x) (of_Z 1)
  else Coarse.sin x.

Definition cos (x : number) : number :=
  if magnitude_is 6288211335136391 (-57) x then
    S754_finite false 8998626396882423 (-53)
  else Coarse.cos x.

Definition platform : Platform :=
  {| p_sin := sin; p_cos := cos; p_atan2 := Coarse.atan2;
     p_round_text := Coarse.round_text; p_toFixed5 := Coarse.toFixed5;
     p_toDataURL := Coarse.toDataURL |}.

(** Two valid coordinates, nearly antipodal. *)
Definition A : Coord := {| lat := of_decimal 25 1; lon := pos_zero |}.
Definition B : Coord := {| lat := SFopp (of_decimal 25 1); lon := of_Z 180 |}.

End Rounded.

(** ** The timer of a submission *)




(** * Properties *)

(** ** Strings *)

Lemma trimStart_nil_iff (s : jsstring) :
  trimStart s = [] <-> Forall (fun c => is_space c = true) s.
Proof.
  induction s as [|c r IH]; simpl.
  - split; auto.
  - destruct (is_space c) eqn:E.
    + rewrite IH. split; intro F.
      * constructor; assumption.
      * inversion F; assumption.
    + split; intro F; [discriminate|].
      inversion F as [|? ? Hc _]; subst. congruence.
Qed.

Lemma trimStart_suffix (s : jsstring) :
  exists p, s = p ++ trimStart s /\ Forall (fun c => is_space c = true) p.
Proof.
  induction s as [|c r [p [E F]]]; simpl.
  - exists []. split; auto.
  - destruct (is_space c) eqn:Ec.
    + exists (c :: p). split; [simpl; f_equal; exact E | constructor; assumption].
    + exists []. split; auto.
Qed.

(** A string is non-blank exactly when it holds a code unit that [trim]
    does not strip. *)
Lemma non_blank_iff (s : jsstring) :
  non_blank s = true <-> Exists (fun c => is_space c = false) s.
Proof.
  unfold non_blank, trim, trimEnd.
  assert (B : forall l : jsstring,
             Forall (fun c => is_space c = true) l <->
             ~ Exists (fun c => is_space c = false) l).
  { intro l. rewrite <- Forall_Exists_neg. split; intro F;
      (eapply Forall_impl; [|exact F]); cbv beta; intros a Ha;
      destruct (is_space a); congruence. }
  assert (E : is_empty (rev (trimStart (rev (trimStart s)))) = true <->
              Forall (fun c => is_space c = true) s).
  { destruct (trimStart_suffix s) as [p [Hs Fp]].
    split.
    - intro Hemp.
      destruct (rev (trimStart (rev (trimStart s)))) eqn:Er; [|discriminate].
      apply (f_equal (@rev N)) in Er. rewrite rev_involutive in Er. simpl in Er.
      apply trimStart_nil_iff in Er.
      rewrite Hs. apply Forall_app. split; [exact Fp|].
      apply Forall_rev in Er. rewrite rev_involutive in Er. exact Er.
    - intro F.
      assert (Ft : trimStart s = []) by (apply trimStart_nil_iff; exact F).
      rewrite Ft. reflexivity. }
  rewrite negb_true_iff. split.
  - intro Hne. destruct (Exists_dec (fun c => is_space c = false) s) as [Ex|Nex].
    + intro c. destruct (is_space c); [right|left]; congruence.
    + exact Ex.
    + apply B in Nex. apply E in Nex. rewrite Nex in Hne. discriminate.
  - intro Ex. apply not_true_iff_false. intro Hemp.
    apply E in Hemp. apply B in Hemp. contradiction.
Qed.

Lemma startsWith_app (s p : jsstring) :
  startsWith s p = true <-> exists r, s = p ++ r.
Proof.
  revert s. induction p as [|c p IH]; intro s; simpl.
  - split; [exists s; reflexivity | reflexivity].
  - destruct s as [|d s'].
    + split; [discriminate | intros [r Hr]; discriminate].
    + rewrite andb_true_iff, N.eqb_eq, IH. split.
      * intros [-> [r ->]]. exists r. reflexivity.
      * intros [r Hr]. injection Hr as -> ->. split; [reflexivity | exists r; reflexivity].
Qed.

(** ** The page: frame lemmas and the trace invariant *)

Section PageFacts.
Variable P : Platform.
Variable C : Coord.

Lemma run_snoc (s : FormState) (t : list event) (e : event) :
  run P C s (t ++ [e]) = step P C (run P C s t) e.
Proof. unfold run. rewrite fold_left_app. reflexivity. Qed.

(** [handleCapture] of [Form] touches the image list only. *)
Lemma handleCapture_frame (img : jsstring) (s : FormState) :
  fields (handleCapture img s) = fields s /\
  location (handleCapture img s) = location s /\
  geoAllowed (handleCapture img s) = geoAllowed s /\
  geoError (handleCapture img s) = geoError s /\
  submitting (handleCapture img s) = submitting s /\
  geoLoading (handleCapture img s) = geoLoading s.
Proof.
  unfold handleCapture.
  destruct (truthy img && startsWith img (lit "data:image")); simpl; repeat split.
Qed.

Lemma handleCapture_images (img : jsstring) (s : FormState) :
  images (handleCapture img s) =
  if truthy img && startsWith img (lit "data:image")
  then images s ++ [img] else images s.
Proof.
  unfold handleCapture.
  destruct (truthy img && startsWith img (lit "data:image")); reflexivity.
Qed.

(** A click on Capture Photo touches the image list only. *)
Lemma click_capture_frame (env : CameraEnv) (s : FormState) :
  let s' := step P C s (ClickCapture env) in
  fields s' = fields s /\ location s' = location s /\
  geoAllowed s' = geoAllowed s /\ geoError s' = geoError s /\
  submitting s' = submitting s /\ geoLoading s' = geoLoading s.
Proof.
  simpl. destruct (CameraCapture.capture_disabled (location s)); [repeat split|].
  destruct (captured (CameraCapture.handleCapture P env (location s))); [|repeat split].
  apply handleCapture_frame.
Qed.

(** The location cells of a reachable state are a function of the trace:
    they are those of the most recent answer, the message being cleared
    and the loading flag raised while a newer request is awaited; the
    coordinate is that of the most recent success. *)
Lemma geo_cells_of_trace (t : list event) :
  let s := run P C mounted t in
  geoAllowed s =
    match last_completed t with
    | Some r => result_allowed P C r
    | None => false
    end /\
  geoError s =
    (if awaiting t then []
     else match last_completed t with
          | Some r => result_error P C r
          | None => []
          end) /\
  geoLoading s = awaiting t /\
  location s = last_located t.
Proof.
  induction t as [|e t IH] using rev_ind.
  - cbn. repeat split.
  - cbv zeta in IH |- *. rewrite run_snoc.
    unfold last_completed, awaiting, last_located in *.
    rewrite rev_app_distr. cbn [rev app].
    destruct IH as (Ha & He & Hl & Hc).
    destruct e as [ | la lo | | i v | v | env | | ];
      cbn [last_completed_from awaiting_from last_located_from].
    + cbn. repeat split; assumption.
    + cbn. repeat split.
    + cbn. repeat split; assumption.
    + destruct i; cbn; repeat split; assumption.
    + cbn. repeat split; assumption.
    + destruct (click_capture_frame env (run P C mounted t))
        as (_ & Hc' & Ha' & He' & _ & Hl').
      cbv zeta in Hc', Ha', He', Hl'.
      rewrite Ha', He', Hl', Hc'. repeat split; assumption.
    + cbn [step]. destruct (submit_disabled _); cbn; repeat split; assumption.
    + cbn. repeat split.
Qed.

End PageFacts.

(** ** The submit gate *)

(** C1, as stated, fails: while a submission is in progress the three fields
    are non-blank, an image exists and the stored coordinate is at distance
    0 from the centre, yet the submit button is disabled. *)
Lemma gate_closed_while_submitting :
  fields_images_distance Coarse.platform Coarse.center submitted_at_center = true /\
  submit_permitted submitted_at_center = false.
Proof. vm_compute. split; reflexivity. Qed.

(** The same gate after a failure: the stored coordinate is still the
    centre, at distance 0, but the flag was lowered by the error callback. *)
Example gate_closed_after_failure :
  let s := run Coarse.platform Coarse.center mounted
             [ PositionOk pos_zero pos_zero;
               ChangeInput NameInput (lit "Ann");
               ChangeInput EmailInput (lit "ann@example.org");
               ChangeMessage (lit "hello");
               ClickCapture Coarse.camera;
               ClickRetry;
               PositionFailed ] in
  fields_images_distance Coarse.platform Coarse.center s = true /\
  submitting s = false /\
  submit_permitted s = false.
Proof. vm_compute. repeat split. Qed.

(** C1 (amended): in every reachable state, submission is permitted if and
    only if name, email and message are non-blank after trimming, the image
    list is non-empty, the most recent completed location request succeeded
    at a distance of at most 150 m from the centre, and no submission is in
    progress.  Hence the gate is false as soon as one of these fails. *)
Theorem submit_gate_iff (P : Platform) (C : Coord) (t : list event) :
  let s := run P C mounted t in
  submit_permitted s = true <->
  non_blank (name (fields s)) = true /\
  non_blank (email (fields s)) = true /\
  non_blank (comments (fields s)) = true /\
  images s <> [] /\
  (exists la lo,
      last_completed t = Some (Located la lo) /\
      fle (distance P la lo (lat C) (lon C)) GEOFENCE_RADIUS_METERS = true) /\
  submitting s = false.
Proof.
  intro s.
  destruct (geo_cells_of_trace P C t) as (Ha & _).
  fold s in Ha.
  assert (G : geoAllowed s = true <->
              exists la lo,
                last_completed t = Some (Located la lo) /\
                fle (distance P la lo (lat C) (lon C)) GEOFENCE_RADIUS_METERS = true).
  { rewrite Ha. destruct (last_completed t) as [[la lo|]|]; cbn.
    - split.
      + intro Hd. exists la, lo. split; [reflexivity | exact Hd].
      + intros (la' & lo' & E & Hd). injection E as -> ->. exact Hd.
    - split; [discriminate | intros (? & ? & E & _); discriminate].
    - split; [discriminate | intros (? & ? & E & _); discriminate]. }
  rewrite <- G.
  unfold submit_permitted, submit_disabled, isFormValid.
  assert (I : (0 <? Z.of_nat (List.length (images s))) = true <-> images s <> []).
  { destruct (images s) as [|i l]; cbn.
    - split; [discriminate | congruence].
    - split; [discriminate | reflexivity]. }
  rewrite <- I.
  rewrite negb_true_iff, !orb_false_iff, !negb_false_iff, !andb_true_iff.
  tauto.
Qed.

(** ** Location failures *)

(** C4: a failed location request leaves a non-empty message, which is the
    text shown in the status line, lowers the geofence flag and so disables
    the submit button; the Retry Location button stays enabled, a click on
    it issues a new request through [getLocation], and the answer to that
    request sets the flag afresh. *)
Theorem location_failure_surfaced (P : Platform) (C : Coord) (s : FormState) :
  let s' := onPositionError s in
  geoError s' = geoDeniedMessage /\
  geoError s' <> [] /\
  status_text s' = geoError s' /\
  geoAllowed s' = false /\
  submit_disabled s' = true /\
  retry_disabled s' = false /\
  step P C s' ClickRetry = getLocation s' /\
  requests_issued s' ClickRetry = 1%nat /\
  (forall la lo : number,
      geoAllowed (run P C s' [ClickRetry; PositionOk la lo]) =
      fle (distance P la lo (lat C) (lon C)) GEOFENCE_RADIUS_METERS).
Proof.
  cbv zeta. repeat split.
  intro E. vm_compute in E. discriminate.
Qed.

(** C9: the error callback writes the message, the flag and the loading
    flag only; the stored coordinate, and with it the state of the Capture
    Photo button, the fields, the images and the submitting flag are those
    of the state before. *)
Theorem location_failure_keeps_coordinate (s : FormState) :
  let s' := onPositionError s in
  location s' = location s /\
  CameraCapture.capture_disabled (location s') = CameraCapture.capture_disabled (location s) /\
  fields s' = fields s /\
  images s' = images s /\
  submitting s' = submitting s.
Proof. cbv zeta. repeat split. Qed.

(** ** Repeated location requests *)

(** C5, as stated, fails: two sequences of requests whose most recent result
    is the same failure end with different coordinates, so the coordinate of
    the final state is not derived from the most recent result. *)
Lemma stale_coordinate_after_failure :
  let t1 := [PositionOk (of_Z 1) (of_Z 1); ClickRetry; PositionFailed] in
  let t2 := [PositionFailed; ClickRetry; PositionFailed] in
  last_completed t1 = last_completed t2 /\
  location (run Coarse.platform Coarse.center mounted t1)
    = Some {| lat := of_Z 1; lon := of_Z 1 |} /\
  location (run Coarse.platform Coarse.center mounted t2) = None.
Proof. vm_compute. repeat split. Qed.

(** C5 (amended): after any trace in which a location request has completed
    and no newer one is awaited, the geofence flag and message are those
    derived from the most recent completed request alone, whatever came
    before; the coordinate is that of the most recent successful request,
    which a later failure leaves in place. *)
Theorem latest_location_result_wins
    (P : Platform) (C : Coord) (t : list event) (r : geo_result) :
  last_completed t = Some r ->
  awaiting t = false ->
  let s := run P C mounted t in
  geoAllowed s = result_allowed P C r /\
  geoError s = result_error P C r /\
  geoLoading s = false /\
  location s = last_located t /\
  match r with
  | Located la lo => location s = Some {| lat := la; lon := lo |}
  | Failed => True
  end.
Proof.
  intros Hr Hw s.
  destruct (geo_cells_of_trace P C t) as (Ha & He & Hl & Hc).
  fold s in Ha, He, Hl, Hc.
  rewrite Hr in Ha, He. rewrite Hw in He, Hl.
  repeat split; try assumption.
  destruct r as [la lo|]; [|exact I].
  rewrite Hc. unfold last_completed, last_located in *.
  induction (rev t) as [|e rt IH]; [discriminate|].
  destruct e; cbn in Hr |- *; try (apply IH; assumption); try discriminate.
  injection Hr as -> ->. reflexivity.
Qed.

Lemma latest_location_result_wins_witness :
  let t := [PositionOk (of_Z 1) (of_Z 1); ClickRetry; PositionOk pos_zero pos_zero] in
  let s := run Coarse.platform Coarse.center mounted t in
  geoAllowed s = true /\ geoError s = [] /\
  location s = Some {| lat := pos_zero; lon := pos_zero |}.
Proof.
  intros t s.
  destruct (latest_location_result_wins Coarse.platform Coarse.center t
              (Located pos_zero pos_zero) eq_refl eq_refl)
    as (Ha & He & _ & _ & Hc).
  fold s in Ha, He, Hc.
  rewrite Ha, He, Hc. vm_compute. repeat split.
Defined.

(** ** Capture *)

(** C6: without a coordinate the Capture Photo button is disabled, and
    [handleCapture] of the camera, were it called all the same, draws
    nothing and hands no image over: the image list is unchanged. *)
Theorem capture_needs_coordinate
    (P : Platform) (C : Coord) (env : CameraEnv) (s : FormState) :
  location s = None ->
  CameraCapture.capture_disabled (location s) = true /\
  rendered (CameraCapture.handleCapture P env (location s)) = [] /\
  captured (CameraCapture.handleCapture P env (location s)) = None /\
  step P C s (ClickCapture env) = s.
Proof.
  intro H. cbn [step]. rewrite H. cbn [CameraCapture.capture_disabled].
  unfold CameraCapture.handleCapture. destruct (videoRef env); repeat split.
Qed.

Lemma capture_needs_coordinate_witness :
  rendered (CameraCapture.handleCapture Coarse.platform Coarse.camera (location mounted)) = [] /\
  images (step Coarse.platform Coarse.center mounted (ClickCapture Coarse.camera)) = [].
Proof.
  destruct (capture_needs_coordinate Coarse.platform Coarse.center
              Coarse.camera mounted eq_refl) as (_ & Hr & _ & Hs).
  rewrite Hr, Hs. split; reflexivity.
Defined.

Lemma images_all_data_image (P : Platform) (C : Coord) (t : list event) :
  Forall data_image (images (run P C mounted t)).
Proof.
  induction t as [|e t IH] using rev_ind.
  - constructor.
  - rewrite run_snoc. set (s := run P C mounted t) in *.
    destruct e as [ | la lo | | i v | v | env | | ]; try exact IH.
    + destruct i; exact IH.
    + cbn [step]. destruct (CameraCapture.capture_disabled (location s)); [exact IH|].
      destruct (captured (CameraCapture.handleCapture P env (location s))) as [img|];
        [|exact IH].
      rewrite handleCapture_images.
      destruct (truthy img && startsWith img (lit "data:image")) eqn:E; [|exact IH].
      apply Forall_app. split; [exact IH|].
      constructor; [|constructor].
      apply andb_true_iff in E. exact (proj2 E).
    + cbn [step]. destruct (submit_disabled s); exact IH.
    + constructor.
Qed.

(** C10: a capture callback either appends its argument at the end of the
    image list, which happens exactly when the argument is non-empty and
    starts with ["data:image"], or leaves the list as it is; in both cases
    the former list is a prefix of the new one.  Every element of the list
    of a reachable state starts with ["data:image"]. *)
Theorem images_append_only (P : Platform) (C : Coord) :
  (forall (img : jsstring) (s : FormState),
      (img <> [] /\ data_image img /\
       images (handleCapture img s) = images s ++ [img]) \/
      (~ (img <> [] /\ data_image img) /\
       images (handleCapture img s) = images s)) /\
  (forall (env : CameraEnv) (s : FormState),
      exists added, images (step P C s (ClickCapture env)) = images s ++ added) /\
  (forall t : list event, Forall data_image (images (run P C mounted t))).
Proof.
  split; [|split].
  - intros img s. rewrite handleCapture_images. unfold data_image.
    destruct img as [|c r].
    + right. split; [intros [H _]; congruence | reflexivity].
    + cbn [truthy is_empty negb andb].
      destruct (startsWith (c :: r) (lit "data:image")) eqn:E.
      * left. repeat split. discriminate.
      * right. split; [intros [_ H]; congruence | reflexivity].
  - intros env s. cbn [step].
    destruct (CameraCapture.capture_disabled (location s)).
    { exists []. symmetry. apply app_nil_r. }
    destruct (captured (CameraCapture.handleCapture P env (location s))) as [img|].
    + rewrite handleCapture_images.
      destruct (truthy img && startsWith img (lit "data:image")).
      * exists [img]. reflexivity.
      * exists []. symmetry. apply app_nil_r.
    + exists []. symmetry. apply app_nil_r.
  - apply images_all_data_image.
Qed.

(** ** Binary64: signs *)

Lemma SFopp_involutive (x : number) : SFopp (SFopp x) = x.
Proof. destruct x as [s|s| |s m e]; cbn; rewrite ?negb_involutive; reflexivity. Qed.

(** Rounding does not look at the sign. *)
Lemma binary_round_aux_opp (s : bool) (m e : Z) (l : SpecFloat.location) :
  binary_round_aux prec emax (negb s) m e l =
  SFopp (binary_round_aux prec emax s m e l).
Proof.
  unfold binary_round_aux.
  destruct (shr_fexp prec emax m e l) as [mrs' e'].
  destruct (shr_fexp prec emax _ e' loc_Exact) as [mrs'' e''].
  destruct (shr_m mrs'') as [|p|p]; try reflexivity.
  destruct (e'' <=? emax - prec); reflexivity.
Qed.

Lemma binary_round_opp (s : bool) (m : positive) (e : Z) :
  binary_round prec emax (negb s) m e = SFopp (binary_round prec emax s m e).
Proof.
  unfold binary_round.
  destruct (shl_align m e _) as [mz ez]. apply binary_round_aux_opp.
Qed.

Lemma xorb_negb_l (a b : bool) : xorb (negb a) b = negb (xorb a b).
Proof. destruct a, b; reflexivity. Qed.

Lemma fmul_opp_l (x y : number) : fmul (SFopp x) y = SFopp (fmul x y).
Proof.
  destruct x as [sx|sx| |sx mx ex], y as [sy|sy| |sy my ey]; cbn;
    rewrite ?xorb_negb_l; try reflexivity.
  apply binary_round_aux_opp.
Qed.

Lemma fmul_comm (x y : number) : fmul x y = fmul y x.
Proof.
  destruct x as [sx|sx| |sx mx ex], y as [sy|sy| |sy my ey]; cbn;
    rewrite ?(xorb_comm sx sy); try reflexivity.
  rewrite (Pos.mul_comm mx my), (Z.add_comm ex ey). reflexivity.
Qed.

Lemma fmul_opp_r (x y : number) : fmul x (SFopp y) = SFopp (fmul x y).
Proof. rewrite fmul_comm, fmul_opp_l, fmul_comm. reflexivity. Qed.

Lemma fdiv_opp_l (x y : number) : fdiv (SFopp x) y = SFopp (fdiv x y).
Proof.
  destruct x as [sx|sx| |sx mx ex], y as [sy|sy| |sy my ey]; cbn;
    rewrite ?xorb_negb_l; try reflexivity.
  destruct (SFdiv_core_binary prec emax (Z.pos mx) ex (Z.pos my) ey) as [[mz ez] lz].
  apply binary_round_aux_opp.
Qed.

(** Swapping the operands of a subtraction negates the result, unless the
    result is +0 or NaN, which it then is both ways. *)
Lemma fsub_swap (x y : number) :
  fsub y x = SFopp (fsub x y) \/ fsub y x = fsub x y.
Proof.
  destruct x as [sx|sx| |sx mx ex], y as [sy|sy| |sy my ey];
    try (destruct sx, sy; cbn; auto; fail);
    try (destruct sx; cbn; auto; fail);
    try (destruct sy; cbn; auto; fail);
    try (cbn; rewrite ?negb_involutive; auto; fail).
  unfold fsub, SFsub. rewrite (Z.min_comm ey ex).
  set (a := cond_Zopp sx _). set (b := cond_Zopp sy _).
  replace (b - a) with (- (a - b)) by ring.
  destruct (a - b) as [|p|p]; cbn [Z.opp binary_normalize].
  - right. reflexivity.
  - left. apply (binary_round_opp false).
  - left. rewrite <- (binary_round_opp true). reflexivity.
Qed.

(** [x == x] holds for every number but NaN. *)
Lemma feq_refl (x : number) : is_nan x = false -> feq x x = true.
Proof.
  destruct x as [s|s| |s m e]; cbn; try reflexivity; try discriminate.
  - destruct s; reflexivity.
  - intros _. unfold feq, SFeqb, SFcompare.
    rewrite Z.compare_refl.
    change (Pos.compare_cont Eq m m) with (Pos.compare m m).
    rewrite Pos.compare_refl. destruct s; reflexivity.
Qed.

(** ** Symmetry of the distance *)

Section Symmetry.
Variable P : Platform.
Hypothesis Hodd : sin_odd P.

Lemma half_sine_opp (d : number) : half_sine P (SFopp d) = SFopp (half_sine P d).
Proof.
  unfold half_sine. rewrite fmul_opp_l, !fdiv_opp_l. apply Hodd.
Qed.

Lemma half_sine_square_swap (x y : number) :
  fmul (half_sine P (fsub y x)) (half_sine P (fsub y x)) =
  fmul (half_sine P (fsub x y)) (half_sine P (fsub x y)).
Proof.
  destruct (fsub_swap x y) as [E|E]; rewrite E; [|reflexivity].
  rewrite half_sine_opp, fmul_opp_l, fmul_opp_r. apply SFopp_involutive.
Qed.

Lemma half_sine_cross_swap (k x y : number) :
  fmul (fmul k (half_sine P (fsub y x))) (half_sine P (fsub y x)) =
  fmul (fmul k (half_sine P (fsub x y))) (half_sine P (fsub x y)).
Proof.
  destruct (fsub_swap x y) as [E|E]; rewrite E; [|reflexivity].
  rewrite half_sine_opp, !fmul_opp_r, fmul_opp_l.
  apply SFopp_involutive.
Qed.

Lemma haversine_a_swap (lat1 lon1 lat2 lon2 : number) :
  haversine_a (H := binary64 P) lat1 lon1 lat2 lon2 =
  haversine_a (H := binary64 P) lat2 lon2 lat1 lon1.
Proof.
  unfold haversine_a, toRad. cbv zeta.
  cbn [add sub mul div int Math_PI Math_sin Math_cos binary64].
  fold (half_sine P (fsub lat2 lat1)). fold (half_sine P (fsub lon2 lon1)).
  fold (half_sine P (fsub lat1 lat2)). fold (half_sine P (fsub lon1 lon2)).
  rewrite (half_sine_square_swap lat1 lat2).
  rewrite (half_sine_cross_swap _ lon1 lon2).
  rewrite (fmul_comm (p_cos P _) (p_cos P _)).
  reflexivity.
Qed.

End Symmetry.

(** C7, as stated, fails: with correctly rounded sine and cosine the
    distance between the valid coordinates (2.5, 0) and (-2.5, 180) is NaN in
    both orders, since [a] rounds to [1 + 2^-52] and [1 - a] is negative; and
    NaN does not compare equal to itself with [==]. *)
Lemma symmetry_fails_on_nan :
  valid_coordinate (lat Rounded.A) (lon Rounded.A) = true /\
  valid_coordinate (lat Rounded.B) (lon Rounded.B) = true /\
  haversine_a (H := binary64 Rounded.platform)
    (lat Rounded.A) (lon Rounded.A) (lat Rounded.B) (lon Rounded.B)
    = S754_finite false 4503599627370497 (-52) /\
  distance Rounded.platform
    (lat Rounded.A) (lon Rounded.A) (lat Rounded.B) (lon Rounded.B) = NaN /\
  distance Rounded.platform
    (lat Rounded.B) (lon Rounded.B) (lat Rounded.A) (lon Rounded.A) = NaN /\
  feq (distance Rounded.platform
         (lat Rounded.A) (lon Rounded.A) (lat Rounded.B) (lon Rounded.B))
      (distance Rounded.platform
         (lat Rounded.B) (lon Rounded.B) (lat Rounded.A) (lon Rounded.A)) = false.
Proof. vm_compute. repeat split. Qed.

(** The sine of that platform is odd. *)
Lemma rounded_sin_odd : sin_odd Rounded.platform.
Proof.
  intros [s|s| |s m e]; try reflexivity.
  cbn [p_sin Rounded.platform SFopp]. unfold Rounded.sin.
  cbn [Rounded.magnitude_is Coarse.sign_bit].
  destruct (Pos.eqb m 6288211335136391 && Z.eqb e (-57));
    [destruct s; reflexivity|].
  destruct (Pos.eqb m 7074237752028440 && Z.eqb e (-52));
    [destruct s; reflexivity|].
  reflexivity.
Qed.

(** C7 (amended): on a platform whose sine is odd, [haversine] returns the
    same number for (A, B) and for (B, A), whatever the four arguments; the
    two results compare equal with [==] whenever that number is not NaN. *)
Theorem haversine_symmetric
    (P : Platform) (lat1 lon1 lat2 lon2 : number) :
  sin_odd P ->
  distance P lat1 lon1 lat2 lon2 = distance P lat2 lon2 lat1 lon1 /\
  (is_nan (distance P lat1 lon1 lat2 lon2) = false ->
   feq (distance P lat1 lon1 lat2 lon2) (distance P lat2 lon2 lat1 lon1) = true).
Proof.
  intro Hodd.
  assert (E : distance P lat1 lon1 lat2 lon2 = distance P lat2 lon2 lat1 lon1).
  { unfold distance, haversine. cbv zeta.
    rewrite (haversine_a_swap P Hodd lat1 lon1 lat2 lon2). reflexivity. }
  split; [exact E|].
  intro Hn. rewrite <- E. apply feq_refl. exact Hn.
Qed.

Lemma coarse_sin_odd : sin_odd Coarse.platform.
Proof. intros [s|s| |s m e]; reflexivity. Qed.

Lemma haversine_symmetric_witness :
  feq (distance Coarse.platform (of_Z 1) (of_Z 2) pos_zero (of_decimal 134989 8))
      (distance Coarse.platform pos_zero (of_decimal 134989 8) (of_Z 1) (of_Z 2)) = true.
Proof.
  apply (haversine_symmetric Coarse.platform (of_Z 1) (of_Z 2) pos_zero
           (of_decimal 134989 8) coarse_sin_odd).
  vm_compute. reflexivity.
Defined.

(** ** Binary64: rounding does not overflow on small operands *)

Lemma digits2_pos_size (p : positive) : digits2_pos p = Pos.size p.
Proof. induction p as [p IH|p IH|]; cbn; rewrite ?IH; reflexivity. Qed.

Lemma Zdigits2_log2 (z : Z) : 0 < z -> Zdigits2 z = Z.log2 z + 1.
Proof.
  destruct z as [|p|p]; try lia. intros _. cbn [Zdigits2].
  rewrite digits2_pos_size. destruct p as [p|p|]; cbn; lia.
Qed.

Lemma Zdigits2_nonneg (z : Z) : 0 <= Zdigits2 z.
Proof. destruct z; cbn; lia. Qed.

(** A non-negative integer below [2^D] has at most [D] binary digits. *)
Lemma Zdigits2_le (z D : Z) : 0 <= z -> 0 <= D -> z < 2 ^ D -> Zdigits2 z <= D.
Proof.
  intros Hz HD Hlt.
  destruct (Z.eq_dec z 0) as [->|Hnz]; [cbn; lia|].
  rewrite Zdigits2_log2 by lia.
  assert (Z.log2 z < D) by (apply Z.log2_lt_pow2; lia). lia.
Qed.

Lemma Zdigits2_gt (z : Z) : 0 <= z -> z < 2 ^ Zdigits2 z.
Proof.
  intro Hz. destruct (Z.eq_dec z 0) as [->|Hnz]; [cbn; lia|].
  rewrite Zdigits2_log2 by lia.
  replace (Z.log2 z + 1) with (Z.succ (Z.log2 z)) by lia.
  apply Z.log2_spec. lia.
Qed.

Lemma shr_1_bounds (r : shr_record) :
  0 <= shr_m r -> 0 <= shr_m (shr_1 r) <= shr_m r.
Proof.
  destruct r as [m r s]. cbn [shr_m]. intro H.
  destruct m as [|[p|p|]|p]; cbn; lia.
Qed.

Lemma iter_shr_1_bounds (p : positive) (r : shr_record) :
  0 <= shr_m r -> 0 <= shr_m (SpecFloat.iter_pos shr_1 p r) <= shr_m r.
Proof.
  revert r. induction p as [p IH|p IH|]; intros r H; cbn [SpecFloat.iter_pos].
  - pose proof (shr_1_bounds r H) as H1.
    pose proof (IH (shr_1 r) (proj1 H1)) as H2.
    pose proof (IH _ (proj1 H2)) as H3. lia.
  - pose proof (IH r H) as H2.
    pose proof (IH _ (proj1 H2)) as H3. lia.
  - apply shr_1_bounds. exact H.
Qed.

Lemma shr_record_of_loc_m (m : Z) (l : SpecFloat.location) :
  shr_m (shr_record_of_loc m l) = m.
Proof. destruct l as [|[| |]]; reflexivity. Qed.

(** Shifting to the canonical exponent: the mantissa does not grow and the
    exponent becomes the larger of the two. *)
Lemma shr_fexp_bounds (m e : Z) (l : SpecFloat.location) :
  0 <= m ->
  0 <= shr_m (fst (shr_fexp prec emax m e l)) <= m /\
  snd (shr_fexp prec emax m e l) = Z.max e (fexp prec emax (Zdigits2 m + e)).
Proof.
  intro Hm. unfold shr_fexp, shr.
  destruct (fexp prec emax (Zdigits2 m + e) - e) as [|p|p] eqn:E; cbn [fst snd].
  - rewrite shr_record_of_loc_m. lia.
  - split; [|lia].
    pose proof (iter_shr_1_bounds p (shr_record_of_loc m l)) as H.
    rewrite shr_record_of_loc_m in H. apply H. exact Hm.
  - rewrite shr_record_of_loc_m. lia.
Qed.

Lemma round_nearest_even_bounds (m : Z) (l : SpecFloat.location) :
  0 <= m -> 0 <= round_nearest_even m l <= m + 1.
Proof.
  intro H. destruct l as [|[| |]]; cbn; try lia.
  destruct (Z.even m); lia.
Qed.

(** Rounding a non-negative mantissa below [2^D] at an exponent of at most
    [E] does not overflow as long as [2 * D + E - 105 <= emax - prec]. *)
Lemma binary_round_aux_bounds (s : bool) (m e : Z) (l : SpecFloat.location) (D E : Z) :
  0 <= m -> m < 2 ^ D -> 53 <= D -> e <= E -> -1074 <= E ->
  2 * D + E - 105 <= 971 ->
  match binary_round_aux prec emax s m e l with
  | S754_zero s' => s' = s
  | S754_finite s' m' e' =>
      s' = s /\ Zpos m' <= m + 1 /\ e' <= 2 * D + E - 105
  | _ => False
  end.
Proof.
  intros Hm HD H53 He HE Hok.
  unfold binary_round_aux.
  pose proof (shr_fexp_bounds m e l Hm) as [Hm1 He1].
  destruct (shr_fexp prec emax m e l) as [r1 e1]. cbn [fst snd] in Hm1, He1.
  set (m1 := round_nearest_even (shr_m r1) (loc_of_shr_record r1)).
  pose proof (round_nearest_even_bounds (shr_m r1) (loc_of_shr_record r1) (proj1 Hm1)) as Hr.
  fold m1 in Hr.
  pose proof (shr_fexp_bounds m1 e1 loc_Exact (proj1 Hr)) as [Hm2 He2].
  destruct (shr_fexp prec emax m1 e1 loc_Exact) as [r2 e2]. cbn [fst snd] in Hm2, He2.
  assert (Hd : Zdigits2 m <= D) by (apply Zdigits2_le; lia).
  assert (Hd1 : Zdigits2 m1 <= D + 1).
  { apply Zdigits2_le; try lia.
    rewrite Z.pow_add_r by lia. change (2 ^ 1) with 2. lia. }
  pose proof (Zdigits2_nonneg m) as Hn. pose proof (Zdigits2_nonneg m1) as Hn1.
  unfold fexp, emin, prec, emax in *.
  assert (Hb : e2 <= 2 * D + E - 105) by lia.
  destruct (shr_m r2) as [|p|p] eqn:Ep.
  - reflexivity.
  - replace (e2 <=? 1024 - 53) with true by (symmetry; apply Z.leb_le; lia).
    repeat split; lia.
  - lia.
Qed.

Lemma small_is_finite (D E : Z) (x : number) : small D E x -> is_finite x = true.
Proof. destruct x; cbn; intuition. Qed.

Lemma fmul_small (D1 E1 D2 E2 : Z) (x y : number) :
  small D1 E1 x -> small D2 E2 y ->
  0 <= D1 -> 0 <= D2 -> 53 <= D1 + D2 -> -1074 <= E1 + E2 ->
  2 * (D1 + D2) + (E1 + E2) - 105 <= 971 ->
  small (D1 + D2 + 1) (2 * (D1 + D2) + (E1 + E2) - 105) (fmul x y).
Proof.
  intros Hx Hy HD1 HD2 H53 HE Hok.
  destruct x as [sx|sx| |sx mx ex], y as [sy|sy| |sy my ey];
    cbn in Hx, Hy; try contradiction; try exact I.
  destruct Hx as [Hmx Hex], Hy as [Hmy Hey].
  unfold fmul, SFmul.
  assert (Hp : Zpos (mx * my) < 2 ^ (D1 + D2)).
  { rewrite Pos2Z.inj_mul, Z.pow_add_r by lia.
    apply Z.mul_lt_mono_nonneg; lia. }
  pose proof (binary_round_aux_bounds (xorb sx sy) (Zpos (mx * my)) (ex + ey)
                loc_Exact (D1 + D2) (E1 + E2)) as H.
  destruct (binary_round_aux prec emax (xorb sx sy) (Zpos (mx * my)) (ex + ey) loc_Exact)
    as [s'|s'| |s' m' e']; cbn; try exact I; try (apply H; lia).
  destruct H as (_ & Hm' & He'); try lia.
  split; [|exact He'].
  rewrite Z.pow_add_r by lia. change (2 ^ 1) with 2. lia.
Qed.

Lemma fdiv_small (D1 E1 D2 L : Z) (x : number) (sy : bool) (my : positive) (ey : Z) :
  small D1 E1 x -> Zpos my < 2 ^ D2 -> - L <= ey ->
  0 <= D1 -> 0 <= D2 -> -1074 <= E1 + L ->
  2 * (D1 + D2 + 53) + (E1 + L) - 105 <= 971 ->
  small (D1 + D2 + 54) (2 * (D1 + D2 + 53) + (E1 + L) - 105)
        (fdiv x (S754_finite sy my ey)).
Proof.
  intros Hx Hmy Hey HD1 HD2 HE Hok.
  destruct x as [sx|sx| |sx mx ex]; cbn in Hx; try contradiction; [exact I|].
  destruct Hx as [Hmx Hex].
  unfold fdiv, SFdiv, SFdiv_core_binary.
  set (d1 := Zdigits2 (Zpos mx)). set (d2 := Zdigits2 (Zpos my)).
  set (e' := Z.min (fexp prec emax (d1 + ex - (d2 + ey))) (ex - ey)).
  set (s := ex - ey - e').
  set (m' := match s with
             | 0 => Zpos mx
             | Zpos _ => Z.shiftl (Zpos mx) s
             | Zneg _ => 0
             end).
  assert (Hd1 : 0 <= d1) by apply Zdigits2_nonneg.
  assert (Hd2 : d2 <= D2) by (apply Zdigits2_le; lia).
  assert (Hs : s <= 53 + D2).
  { unfold s, e', fexp, emin, prec, emax. lia. }
  assert (Hm' : 0 <= m' < 2 ^ (D1 + D2 + 53)).
  { unfold m'. destruct s as [|p|p] eqn:Es.
    - split; [lia|]. apply Z.lt_le_trans with (2 ^ D1); [lia|].
      apply Z.pow_le_mono_r; lia.
    - rewrite Z.shiftl_mul_pow2 by lia. split; [lia|].
      apply Z.lt_le_trans with (2 ^ D1 * 2 ^ Zpos p).
      + apply Z.mul_lt_mono_pos_r; lia.
      + rewrite <- Z.pow_add_r by lia. apply Z.pow_le_mono_r; lia.
    - split; [lia|]. apply Z.pow_pos_nonneg; lia. }
  assert (Hq : 0 <= m' / Zpos my <= m').
  { split; [apply Z.div_pos; lia|].
    apply Z.div_le_upper_bound; [lia|]. nia. }
  assert (Eq : fst (Z.div_eucl m' (Zpos my)) = m' / Zpos my) by reflexivity.
  destruct (Z.div_eucl m' (Zpos my)) as [q r]. cbn [fst] in Eq. subst q.
  pose proof (binary_round_aux_bounds (xorb sx sy) (m' / Zpos my) e'
                (new_location (Zpos my) r) (D1 + D2 + 53) (E1 + L)) as H.
  assert (He' : e' <= E1 + L) by (unfold e'; lia).
  destruct (binary_round_aux prec emax (xorb sx sy) (m' / Zpos my) e'
              (new_location (Zpos my) r)) as [s'|s'| |s' m'' e''];
    cbn; try exact I; try (apply H; lia).
  destruct H as (_ & Hm'' & He''); try lia.
  split; [|exact He''].
  replace (D1 + D2 + 54) with (D1 + D2 + 53 + 1) by lia.
  rewrite Z.pow_add_r by lia. change (2 ^ 1) with 2. lia.
Qed.

(** A binary64 number has a mantissa of at most 53 bits and an exponent of at
    most 971. *)
Lemma valid_small (x : number) :
  valid x = true -> is_finite x = true -> small 53 971 x.
Proof.
  destruct x as [s|s| |s m e]; cbn; try discriminate; [trivial|].
  intros Hv _. unfold bounded, canonical_mantissa in Hv.
  apply andb_true_iff in Hv. destruct Hv as [Hc He].
  apply Z.eqb_eq in Hc. apply Z.leb_le in He.
  unfold fexp, emin, prec, emax in *.
  split; [|lia].
  change (Zpos m < 2 ^ 53).
  apply Z.lt_le_trans with (2 ^ Zdigits2 (Zpos m)).
  - apply Zdigits2_gt. lia.
  - apply Z.pow_le_mono_r; [lia|]. cbn [Zdigits2]. lia.
Qed.

(** A number of magnitude at most [M * 2^E] is finite, with an exponent of
    at most [E]. *)
Lemma fle_abs_exponent (x : number) (M : positive) (E : Z) :
  fle (SFabs x) (S754_finite false M E) = true ->
  match x with
  | S754_zero _ => True
  | S754_finite _ _ e => e <= E
  | _ => False
  end.
Proof.
  destruct x as [s|s| |s m e]; cbn; try discriminate; [trivial|].
  unfold fle, SFleb, SFcompare.
  destruct (Z.compare_spec e E); try discriminate; lia.
Qed.

Lemma in_range_small (bound : Z) (M : positive) (E : Z) (x : number) :
  of_Z bound = S754_finite false M E -> E <= 971 ->
  in_range bound x = true -> small 53 E x.
Proof.
  intros Hb HE Hr. unfold in_range in Hr. apply andb_true_iff in Hr.
  destruct Hr as [Hv Hle]. rewrite Hb in Hle.
  apply fle_abs_exponent in Hle.
  destruct x as [s|s| |s m e]; try contradiction; [exact I|].
  destruct (valid_small (S754_finite s m e) Hv eq_refl) as [Hm _].
  split; assumption.
Qed.

Lemma in_range_is_finite (bound : Z) (M : positive) (E : Z) (x : number) :
  of_Z bound = S754_finite false M E -> E <= 971 ->
  in_range bound x = true -> is_finite x = true.
Proof.
  intros Hb HE Hr. eapply small_is_finite.
  exact (in_range_small bound M E x Hb HE Hr).
Qed.

(** [x - x] is [+0] for every finite [x]. *)
Lemma fsub_self (x : number) : is_finite x = true -> fsub x x = pos_zero.
Proof.
  destruct x as [[|]|s| |s m e]; cbn; try discriminate; try reflexivity.
  intros _. rewrite Z.sub_diag. reflexivity.
Qed.

(** ** Distance from a point to itself *)

Section SelfDistance.
Variable P : Platform.
Hypothesis Hsin : sin_zero P.
Hypothesis Hatan : atan2_zero P.
Hypothesis Hcos : cos_range P.

(** [toRad] of a latitude does not overflow. *)
Lemma toRad_latitude_finite (x : number) :
  in_range 90 x = true ->
  is_finite (fdiv (fmul x PI64) (of_Z 180)) = true.
Proof.
  intro Hr.
  assert (Hx : small 53 (-46) x).
  { apply (in_range_small 90 6333186975989760 (-46));
      [reflexivity | lia | exact Hr]. }
  assert (Hp : small 53 (-51) PI64) by (cbn; split; lia).
  pose proof (fmul_small 53 (-46) 53 (-51) x PI64 Hx Hp) as Hm.
  cbn in Hm. specialize (Hm ltac:(lia) ltac:(lia) ltac:(lia) ltac:(lia) ltac:(lia)).
  change (of_Z 180) with (S754_finite false 6333186975989760 (-45)).
  eapply small_is_finite.
  apply (fdiv_small 107 10 53 45); try lia; try exact Hm.
Qed.

(** The product of two cosines is finite. *)
Lemma cos_product_finite (x y : number) :
  is_finite x = true -> is_finite y = true ->
  is_finite (fmul (p_cos P x) (p_cos P y)) = true.
Proof.
  intros Hx Hy.
  destruct (Hcos x Hx) as [Vx Lx]. destruct (Hcos y Hy) as [Vy Ly].
  assert (B : forall c, valid c = true -> fle (SFabs c) (of_Z 1) = true ->
                        small 53 (-52) c).
  { intros c Vc Lc. apply (in_range_small 1 4503599627370496 (-52));
      [reflexivity | lia |].
    unfold in_range. rewrite Vc, Lc. reflexivity. }
  eapply small_is_finite.
  apply (fmul_small 53 (-52) 53 (-52)); try lia; apply B; assumption.
Qed.

Lemma haversine_a_self (latitude longitude : number) :
  valid_coordinate latitude longitude = true ->
  haversine_a (H := binary64 P) latitude longitude latitude longitude = pos_zero.
Proof.
  intro Hv. unfold valid_coordinate in Hv. apply andb_true_iff in Hv.
  destruct Hv as [Hla Hlo].
  unfold haversine_a, toRad. cbv zeta.
  cbn [add sub mul div int Math_PI Math_sin Math_cos binary64].
  rewrite (fsub_self latitude)
    by (apply (in_range_is_finite 90 6333186975989760 (-46));
        [reflexivity | lia | exact Hla]).
  rewrite (fsub_self longitude)
    by (apply (in_range_is_finite 180 6333186975989760 (-45));
        [reflexivity | lia | exact Hlo]).
  replace (fdiv (fdiv (fmul pos_zero PI64) (of_Z 180)) (of_Z 2)) with pos_zero
    by reflexivity.
  rewrite Hsin.
  pose proof (toRad_latitude_finite latitude Hla) as Hf.
  pose proof (cos_product_finite _ _ Hf Hf) as Hc.
  destruct (fmul (p_cos P _) (p_cos P _)) as [s|s| |s m e];
    try discriminate; destruct s; reflexivity.
Qed.

Lemma distance_self (latitude longitude : number) :
  valid_coordinate latitude longitude = true ->
  distance P latitude longitude latitude longitude = pos_zero.
Proof.
  intro Hv. unfold distance, haversine. cbv zeta.
  rewrite (haversine_a_self latitude longitude Hv).
  cbn [add sub mul div int Math_sqrt Math_atan2 binary64].
  replace (fsqrt pos_zero) with pos_zero by reflexivity.
  rewrite Hatan by (vm_compute; reflexivity).
  vm_compute. reflexivity.
Qed.

End SelfDistance.

(** C8: on a platform where [Math.sin(+0)] is [+0], [Math.atan2(+0, x)] is
    [+0] for positive [x], and the cosine of a finite number lies between -1
    and 1, the distance from a coordinate to itself is the number [+0], which
    compares equal to [0]. *)
Theorem haversine_self_zero (P : Platform) (latitude longitude : number) :
  sin_zero P -> atan2_zero P -> cos_range P ->
  valid_coordinate latitude longitude = true ->
  distance P latitude longitude latitude longitude = pos_zero /\
  feq (distance P latitude longitude latitude longitude) (of_Z 0) = true.
Proof.
  intros Hsin Hatan Hcos Hv.
  pose proof (distance_self P Hsin Hatan Hcos latitude longitude Hv) as E.
  split; [exact E|]. rewrite E. reflexivity.
Qed.

Lemma coarse_sin_zero : sin_zero Coarse.platform.
Proof. reflexivity. Qed.

Lemma coarse_atan2_zero : atan2_zero Coarse.platform.
Proof.
  intros x Hx. cbn [p_atan2 Coarse.platform]. unfold Coarse.atan2.
  destruct x as [s|[|]| |[|] m e]; try discriminate; reflexivity.
Qed.

Lemma coarse_cos_range : cos_range Coarse.platform.
Proof.
  intros x Hx. destruct x as [s|s| |s m e]; try discriminate;
    split; reflexivity.
Qed.

Lemma haversine_self_zero_witness :
  valid_coordinate (of_decimal 4885341 5) (of_decimal 235001 5) = true /\
  distance Coarse.platform (of_decimal 4885341 5) (of_decimal 235001 5)
    (of_decimal 4885341 5) (of_decimal 235001 5) = pos_zero.
Proof.
  split; [vm_compute; reflexivity|].
  apply (haversine_self_zero Coarse.platform (of_decimal 4885341 5)
           (of_decimal 235001 5) coarse_sin_zero coarse_atan2_zero coarse_cos_range).
  vm_compute. reflexivity.
Defined.

(** ** The geofence boundary *)

Lemma powerRZ2_pos (e : Z) : (0 < powerRZ 2 e)%R.
Proof. apply powerRZ_lt. lra. Qed.

Lemma powerRZ2_IZR (k : Z) : 0 <= k -> powerRZ 2 k = IZR (2 ^ k).
Proof.
  destruct k as [|p|p]; try lia; intros _.
  - reflexivity.
  - symmetry. apply (Zpower_pos_powerRZ 2 p).
Qed.

Lemma powerRZ2_le (a b : Z) : a <= b -> (powerRZ 2 a <= powerRZ 2 b)%R.
Proof.
  intro H. replace b with (a + (b - a)) by lia.
  rewrite powerRZ_add by lra.
  assert (H1 : (1 <= powerRZ 2 (b - a))%R).
  { rewrite powerRZ2_IZR by lia. apply IZR_le.
    assert (0 < 2 ^ (b - a)) by (apply Z.pow_pos_nonneg; lia). lia. }
  pose proof (powerRZ2_pos a). nra.
Qed.

(** A binary64 number with an exponent above the least one is normal: its
    mantissa has 53 bits. *)
Lemma valid_normal (s : bool) (m : positive) (e : Z) :
  valid (S754_finite s m e) = true -> -1074 < e -> 2 ^ 52 <= Zpos m.
Proof.
  intros Hv He.
  unfold valid, valid_binary, bounded, canonical_mantissa in Hv.
  apply andb_true_iff in Hv. destruct Hv as [Hc _]. apply Z.eqb_eq in Hc.
  unfold fexp, emin, prec, emax in Hc.
  assert (Hd : Zdigits2 (Zpos m) = 53) by (cbn [Zdigits2]; lia).
  rewrite Zdigits2_log2 in Hd by lia.
  pose proof (Z.log2_spec (Zpos m) ltac:(lia)) as [Hl _].
  replace (Z.log2 (Zpos m)) with 52 in Hl by lia. exact Hl.
Qed.

Lemma powerRZ2_lit (k : Z) (n : Z) : 0 <= k -> 2 ^ k = n -> powerRZ 2 k = IZR n.
Proof. intros Hk <-. apply powerRZ2_IZR. exact Hk. Qed.

(** Comparison of two positive finite numbers: exponents first, then
    mantissas. *)
Lemma fle_finite_pos (m1 : positive) (e1 : Z) (m2 : positive) (e2 : Z) :
  fle (S754_finite false m1 e1) (S754_finite false m2 e2) =
  match Z.compare e1 e2 with
  | Lt => true
  | Eq => Zpos m1 <=? Zpos m2
  | Gt => false
  end.
Proof.
  unfold fle, SFleb, SFcompare. destruct (Z.compare e1 e2); reflexivity.
Qed.

Lemma radius_literal :
  GEOFENCE_RADIUS_METERS = S754_finite false 5277655813324800 (-45).
Proof. vm_compute. reflexivity. Qed.

Lemma below_radius (m : positive) (e : Z) :
  Zpos m < 2 ^ 53 -> e < -45 -> (1 * IZR (Zpos m) * powerRZ 2 e <= 150)%R.
Proof.
  intros Hm53 He.
  pose proof (powerRZ2_pos e) as Hp.
  assert (Hm : (0 < IZR (Zpos m))%R) by (apply IZR_lt; lia).
  assert (Hz : (IZR (Zpos m) < powerRZ 2 53)%R).
  { rewrite powerRZ2_IZR by lia. apply IZR_lt. exact Hm53. }
  assert (Hq : (powerRZ 2 53 * powerRZ 2 e <= 128)%R).
  { rewrite <- powerRZ_add by lra.
    rewrite <- (powerRZ2_lit 7 128) by (reflexivity || lia).
    apply powerRZ2_le. lia. }
  set (q := powerRZ 2 e) in *. set (b := powerRZ 2 53) in *.
  nra.
Qed.

Lemma above_radius (m : positive) (e : Z) :
  2 ^ 52 <= Zpos m -> -45 < e -> (150 < 1 * IZR (Zpos m) * powerRZ 2 e)%R.
Proof.
  intros Hn He.
  pose proof (powerRZ2_pos e) as Hp.
  apply IZR_le in Hn. rewrite <- powerRZ2_IZR in Hn by lia.
  assert (Hq : (256 <= powerRZ 2 52 * powerRZ 2 e)%R).
  { rewrite <- powerRZ_add by lra.
    rewrite <- (powerRZ2_lit 8 256) by (reflexivity || lia).
    apply powerRZ2_le. lia. }
  set (q := powerRZ 2 e) in *. set (b := powerRZ 2 52) in *.
  nra.
Qed.

Lemma at_radius_exponent (z : Z) :
  (1 * IZR z * powerRZ 2 (-45) <= 150)%R <-> z <= 5277655813324800.
Proof.
  assert (Hs : (powerRZ 2 (-45) * IZR 35184372088832 = 1)%R).
  { rewrite <- (powerRZ2_lit 45 35184372088832) by (reflexivity || lia).
    rewrite <- powerRZ_add by lra. reflexivity. }
  set (q := powerRZ 2 (-45)) in *.
  assert (HM : IZR 5277655813324800 = (150 * IZR 35184372088832)%R).
  { rewrite <- mult_IZR. reflexivity. }
  assert (H45 : (0 < IZR 35184372088832)%R) by (apply IZR_lt; reflexivity).
  split.
  - intro Hle. apply le_IZR. rewrite HM. nra.
  - intro Hle. apply IZR_le in Hle. rewrite HM in Hle. nra.
Qed.

Lemma fle_radius_real (d : number) :
  valid d = true -> is_finite d = true ->
  (fle d GEOFENCE_RADIUS_METERS = true <-> (real_value d <= 150)%R).
Proof.
  intros Hv Hf. rewrite radius_literal.
  destruct d as [s|s| |s m e]; try discriminate.
  - unfold real_value. split; [intros _; lra | reflexivity].
  - unfold real_value. destruct s.
    + pose proof (powerRZ2_pos e) as Hp.
      assert (Hm : (0 < IZR (Zpos m))%R) by (apply IZR_lt; lia).
      split; [intros _; nra | reflexivity].
    + rewrite fle_finite_pos.
      destruct (valid_small _ Hv eq_refl) as [Hm53 _].
      destruct (Z.compare_spec e (-45)) as [He|He|He].
      * subst e. rewrite at_radius_exponent. apply Z.leb_le.
      * split; [intros _|reflexivity]. apply below_radius; assumption.
      * split; [discriminate|]. intro Hle. exfalso.
        assert (Hn : 2 ^ 52 <= Zpos m) by (apply (valid_normal false m e Hv); lia).
        pose proof (above_radius m e Hn He). lra.
Qed.

(** C3: the geofence flag set by the success callback is the comparison
    [dist <= 150].  On binary64 distances this comparison holds exactly when
    the real value of the distance is at most 150, the bound included, and
    fails for NaN and for positive infinity.  In particular a distance of 0
    and a distance of exactly 150 are inside, a distance of 150.001 is
    outside; and a position that is the centre itself is inside, on a
    platform on which the distance from a point to itself is computed as 0. *)
Theorem geofence_boundary_inclusive :
  (forall (P : Platform) (C : Coord) (la lo : number) (s : FormState),
      geoAllowed (onPosition P C la lo s) =
      fle (distance P la lo (lat C) (lon C)) GEOFENCE_RADIUS_METERS) /\
  (forall d : number,
      valid d = true -> is_finite d = true ->
      (fle d GEOFENCE_RADIUS_METERS = true <-> (real_value d <= 150)%R)) /\
  fle NaN GEOFENCE_RADIUS_METERS = false /\
  fle (S754_infinity false) GEOFENCE_RADIUS_METERS = false /\
  fle pos_zero GEOFENCE_RADIUS_METERS = true /\
  fle (of_Z 150) GEOFENCE_RADIUS_METERS = true /\
  fle (of_decimal 150001 3) GEOFENCE_RADIUS_METERS = false /\
  (forall (P : Platform) (C : Coord) (s : FormState),
      sin_zero P -> atan2_zero P -> cos_range P ->
      valid_coordinate (lat C) (lon C) = true ->
      geoAllowed (onPosition P C (lat C) (lon C) s) = true).
Proof.
  split; [reflexivity|].
  split; [exact fle_radius_real|].
  do 5 (split; [vm_compute; reflexivity|]).
  intros P C s Hsin Hatan Hcos Hv.
  cbn [onPosition geoAllowed setGeoLoading setGeoError setGeoAllowed].
  rewrite (distance_self P Hsin Hatan Hcos (lat C) (lon C) Hv). reflexivity.
Qed.

Lemma geofence_boundary_inclusive_witness :
  (real_value (of_Z 150) <= 150)%R /\
  ~ (real_value (of_decimal 150001 3) <= 150)%R /\
  geoAllowed (onPosition Coarse.platform Coarse.center pos_zero pos_zero mounted) = true.
Proof.
  destruct geofence_boundary_inclusive
    as (_ & H & _ & _ & _ & H150 & Hout & Hcenter).
  split; [|split].
  3: exact (Hcenter Coarse.platform Coarse.center mounted coarse_sin_zero
              coarse_atan2_zero coarse_cos_range eq_refl).
  - apply (H (of_Z 150)); [vm_compute; reflexivity | vm_compute; reflexivity |].
    exact H150.
  - intro Hle.
    apply (H (of_decimal 150001 3)) in Hle;
      [| vm_compute; reflexivity | vm_compute; reflexivity].
    rewrite Hout in Hle. discriminate.
Defined.

(** ** The formula *)

(** The literal [6371e3] is exact in binary64. *)
Lemma R_earth_exact (P : Platform) :
  real_value (R_earth (H := binary64 P)) = 6371000%R.
Proof.
  change (R_earth (H := binary64 P))
    with (S754_finite false 6840809160704000 (-30)).
  unfold real_value.
  assert (Hs : (powerRZ 2 (-30) * IZR 1073741824 = 1)%R).
  { rewrite <- (powerRZ2_lit 30 1073741824) by (reflexivity || lia).
    rewrite <- powerRZ_add by lra. reflexivity. }
  assert (HM : IZR 6840809160704000 = (6371000 * IZR 1073741824)%R).
  { rewrite <- mult_IZR. reflexivity. }
  rewrite HM. set (q := powerRZ 2 (-30)) in *. nra.
Qed.

(** C2: in binary64 the function returns [R * (2 * atan2(sqrt a, sqrt (1 - a)))]
    with [R] the number 6371000 and
    [a = sin(dLat/2) * sin(dLat/2) + cos(lat1) * cos(lat2) * sin(dLon/2) * sin(dLon/2)],
    the latitudes and the two differences being converted to radians; read
    in exact arithmetic, the same expression is the great-circle formula
    [2 R atan2(sqrt a, sqrt (1 - a))] with
    [a = sin^2(dlat/2) + cos(lat1) cos(lat2) sin^2(dlon/2)] on the radian
    values of the inputs. *)
Theorem haversine_formula :
  (forall (P : Platform) (lat1 lon1 lat2 lon2 : number),
      distance P lat1 lon1 lat2 lon2 =
      let rad x := fdiv (fmul x PI64) (of_Z 180) in
      let sin_half d := p_sin P (fdiv (rad d) (of_Z 2)) in
      let a :=
        fadd (fmul (sin_half (fsub lat2 lat1)) (sin_half (fsub lat2 lat1)))
             (fmul (fmul (fmul (p_cos P (rad lat1)) (p_cos P (rad lat2)))
                         (sin_half (fsub lon2 lon1)))
                   (sin_half (fsub lon2 lon1))) in
      fmul (of_Z 6371000)
           (fmul (of_Z 2) (p_atan2 P (fsqrt a) (fsqrt (fsub (of_Z 1) a))))) /\
  (forall P : Platform, real_value (R_earth (H := binary64 P)) = 6371000%R) /\
  (forall lat1 lon1 lat2 lon2 : R,
      haversine (H := Exact.reals) lat1 lon1 lat2 lon2 =
      Exact.great_circle_formula lat1 lon1 lat2 lon2).
Proof.
  split; [reflexivity|].
  split; [exact R_earth_exact|].
  intros lat1 lon1 lat2 lon2.
  unfold haversine, haversine_a, R_earth, toRad, Exact.great_circle_formula,
    Exact.radians.
  cbv zeta.
  cbn [add sub mul div int Math_PI Math_sin Math_cos Math_sqrt Math_atan2
       Exact.reals].
  unfold Rsqr.
  replace ((lat2 - lat1) * PI / 180)%R
    with (lat2 * PI / 180 - lat1 * PI / 180)%R by field.
  replace ((lon2 - lon1) * PI / 180)%R
    with (lon2 * PI / 180 - lon1 * PI / 180)%R by field.
  set (sn := sin ((lon2 * PI / 180 - lon1 * PI / 180) / 2)).
  set (cc := (cos (lat1 * PI / 180) * cos (lat2 * PI / 180))%R).
  replace (cc * (sn * sn))%R with (cc * sn * sn)%R by ring.
  ring.
Qed.

(** * Further properties of the form *)

(** ** Field validity and edits *)

(** X1: [isFormValid] holds exactly when each of name, email and message
    holds at least one code unit that is not white space, and the image list
    is not empty; a field made of spaces, tabs and line ends only counts as
    blank. *)
Theorem form_valid_iff (s : FormState) :
  isFormValid s = true <->
  Exists (fun c => is_space c = false) (name (fields s)) /\
  Exists (fun c => is_space c = false) (email (fields s)) /\
  Exists (fun c => is_space c = false) (comments (fields s)) /\
  images s <> [].
Proof.
  unfold isFormValid. rewrite !andb_true_iff, !non_blank_iff.
  assert (I : (0 <? Z.of_nat (List.length (images s))) = true <-> images s <> []).
  { destruct (images s) as [|i l]; cbn.
    - split; [discriminate | congruence].
    - split; [discriminate | reflexivity]. }
  rewrite I. tauto.
Qed.

(** X2: an edit of one field keeps the two other fields and every other
    cell of the form; the last edit of a field wins, and edits of different
    fields can be made in either order. *)
Theorem field_edits_compose (s : FormState) (i : input) (a b : jsstring) :
  handleFieldChange i b (handleFieldChange i a s) = handleFieldChange i b s /\
  handleMessageChange b (handleMessageChange a s) = handleMessageChange b s /\
  handleFieldChange NameInput a (handleFieldChange EmailInput b s) =
    handleFieldChange EmailInput b (handleFieldChange NameInput a s) /\
  handleMessageChange a (handleFieldChange i b s) =
    handleFieldChange i b (handleMessageChange a s) /\
  name (fields (handleFieldChange EmailInput a s)) = name (fields s) /\
  comments (fields (handleFieldChange i a s)) = comments (fields s) /\
  email (fields (handleFieldChange NameInput a s)) = email (fields s) /\
  name (fields (handleMessageChange a s)) = name (fields s) /\
  email (fields (handleMessageChange a s)) = email (fields s) /\
  (let s' := handleFieldChange i a s in
   images s' = images s /\ location s' = location s /\
   geoAllowed s' = geoAllowed s /\ geoError s' = geoError s /\
   submitting s' = submitting s /\ geoLoading s' = geoLoading s) /\
  (let s' := handleMessageChange a s in
   images s' = images s /\ location s' = location s /\
   geoAllowed s' = geoAllowed s /\ geoError s' = geoError s /\
   submitting s' = submitting s /\ geoLoading s' = geoLoading s).
Proof. destruct i; cbv zeta; repeat split. Qed.

(** ** Submission *)



Lemma submitting_has_image_step (P : Platform) (C : Coord) (s : FormState) (e : event) :
  (submitting s = true -> images s <> []) ->
  submitting (step P C s e) = true -> images (step P C s e) <> [].
Proof.
  intros IH.
  destruct e as [ | la lo | | i v | v | env | | ]; try exact IH.
  - destruct i; exact IH.
  - destruct (click_capture_frame P C env s) as (_ & _ & _ & _ & Hs & _).
    cbv zeta in Hs. rewrite Hs. intro Hsub. specialize (IH Hsub).
    cbn [step]. destruct (CameraCapture.capture_disabled (location s)); [exact IH|].
    destruct (captured (CameraCapture.handleCapture P env (location s))) as [img|];
      [|exact IH].
    rewrite handleCapture_images.
    destruct (truthy img && startsWith img (lit "data:image")); [|exact IH].
    intro E. apply app_eq_nil in E. destruct E as [_ E]. discriminate.
  - cbn [step]. destruct (submit_disabled s) eqn:E; [exact IH|].
    intros _. cbn.
    unfold submit_disabled, isFormValid in E.
    rewrite !orb_false_iff, !negb_false_iff, !andb_true_iff in E.
    destruct E as (_ & (_ & Hi)).
    intro Hn. rewrite Hn in Hi. discriminate.
  - cbn. discriminate.
Qed.

(** X4: in every reachable state, a submission in progress carries at least
    one image: Submit is accepted only with a non-empty image list, and no
    event before the reload removes an image. *)
Theorem submitting_has_image (P : Platform) (C : Coord) (t : list event) :
  submitting (run P C mounted t) = true -> images (run P C mounted t) <> [].
Proof.
  induction t as [|e t IH] using rev_ind.
  - cbn. discriminate.
  - rewrite run_snoc. apply submitting_has_image_step. exact IH.
Qed.

Lemma submitting_has_image_witness :
  images submitted_at_center <> [].
Proof.
  apply (submitting_has_image Coarse.platform Coarse.center
           [ PositionOk pos_zero pos_zero;
             ChangeInput NameInput (lit "Ann");
             ChangeInput EmailInput (lit "ann@example.org");
             ChangeMessage (lit "hello");
             ClickCapture Coarse.camera;
             ClickSubmit ]).
  vm_compute. reflexivity.
Defined.

(** ** The status line and the geofence flag *)




(** X6: a position outside the fence, or one whose distance is NaN, lowers
    the flag, writes the message "You are <rounded distance>m from the
    allowed location.", which the status line shows, and disables Submit;
    the coordinate is stored all the same, so the Capture Photo button is
    enabled outside the fence. *)
Theorem outside_fence_position
    (P : Platform) (C : Coord) (la lo : number) (s : FormState) :
  fle (distance P la lo (lat C) (lon C)) GEOFENCE_RADIUS_METERS = false ->
  let s' := onPosition P C la lo s in
  geoAllowed s' = false /\
  geoError s' =
    lit "You are " ++ p_round_text P (distance P la lo (lat C) (lon C))
      ++ lit "m from the allowed location." /\
  status_text s' = geoError s' /\
  submit_disabled s' = true /\
  location s' = Some {| lat := la; lon := lo |} /\
  CameraCapture.capture_disabled (location s') = false.
Proof.
  intros H s'. subst s'. unfold onPosition. cbv zeta. rewrite H.
  cbn [geoAllowed geoError location setGeoLoading setGeoError setGeoAllowed
       setLocation status_text geoLoading submit_disabled negb orb
       CameraCapture.capture_disabled].
  repeat split.
Qed.

Lemma outside_fence_position_witness :
  let s' := onPosition Coarse.platform Coarse.center (of_Z 1) (of_Z 1) mounted in
  geoError s' = lit "You are 157265m from the allowed location." /\
  CameraCapture.capture_disabled (location s') = false.
Proof.
  destruct (outside_fence_position Coarse.platform Coarse.center (of_Z 1) (of_Z 1)
              mounted eq_refl) as (_ & He & _ & _ & _ & Hc).
  cbv zeta. rewrite He, Hc. split; vm_compute; reflexivity.
Defined.

Lemma last_completed_located (rt : list event) (la lo : number) :
  last_completed_from rt = Some (Located la lo) ->
  last_located_from rt = Some {| lat := la; lon := lo |}.
Proof.
  induction rt as [|e rt IH]; cbn; [discriminate|].
  destruct e; intro H; try discriminate; try (apply IH; exact H).
  injection H as -> ->. reflexivity.
Qed.

(** X7: the conditions of the specification's invariant are necessary: in
    every reachable state in which submission is permitted, the three fields
    are non-blank, an image exists and the stored coordinate lies within the
    radius. *)
Theorem permitted_implies_conditions (P : Platform) (C : Coord) (t : list event) :
  submit_permitted (run P C mounted t) = true ->
  fields_images_distance P C (run P C mounted t) = true.
Proof.
  set (s := run P C mounted t). intro H.
  destruct (geo_cells_of_trace P C t) as (Ha & _ & _ & Hc).
  fold s in Ha, Hc.
  unfold submit_permitted, submit_disabled, isFormValid in H.
  rewrite negb_true_iff, !orb_false_iff, !negb_false_iff, !andb_true_iff in H.
  destruct H as ((Hg & _) & ((Hn & Hm) & Hk) & Hi).
  unfold fields_images_distance, within_fence.
  rewrite Hn, Hm, Hk. cbn [andb].
  assert (Hlen : negb (Nat.eqb (List.length (images s)) 0) = true).
  { destruct (images s); [discriminate | reflexivity]. }
  rewrite Hlen. cbn [andb].
  rewrite Hg in Ha.
  unfold last_completed, last_located in *.
  destruct (last_completed_from (rev t)) as [[la lo|]|] eqn:El; try discriminate.
  rewrite Hc, (last_completed_located _ la lo El). cbn [lat lon].
  symmetry. exact Ha.
Qed.

Lemma permitted_implies_conditions_witness :
  let t := [ PositionOk pos_zero pos_zero;
             ChangeInput NameInput (lit "Ann");
             ChangeInput EmailInput (lit "ann@example.org");
             ChangeMessage (lit "hello");
             ClickCapture Coarse.camera ] in
  submit_permitted (run Coarse.platform Coarse.center mounted t) = true /\
  fields_images_distance Coarse.platform Coarse.center
    (run Coarse.platform Coarse.center mounted t) = true.
Proof.
  intro t. split; [vm_compute; reflexivity|].
  apply (permitted_implies_conditions Coarse.platform Coarse.center t).
  vm_compute. reflexivity.
Defined.

(** ** What a capture records *)

(** X8: a photo is stamped with the coordinate of the most recent
    successful location request of the session, also when a later request
    failed or is still awaited: the overlay draws the frame, a band over the
    lowest 70 pixels, the time, and that latitude and longitude with five
    decimals; the canvas has the size of the video frame. *)
Theorem capture_stamps_latest_fix
    (P : Platform) (C : Coord) (t : list event) (env : CameraEnv)
    (v : Video) (c : Coord) :
  last_located t = Some c ->
  videoRef env = Some v ->
  has_context env = true ->
  let cap := CameraCapture.handleCapture P env (location (run P C mounted t)) in
  rendered cap =
    [ DrawImage 0 0;
      SetFont (lit "24px Arial");
      SetFillStyle (lit "rgba(0,0,0,0.5)");
      FillRect 0 (videoHeight v - 70) (videoWidth v) 70;
      SetFillStyle (lit "white");
      FillText (lit "Time: " ++ now_text env) 10 (videoHeight v - 45);
      FillText (lit "Lat: " ++ p_toFixed5 P (lat c)) 10 (videoHeight v - 20);
      FillText (lit "Lon: " ++ p_toFixed5 P (lon c)) 220 (videoHeight v - 20) ] /\
  captured cap =
    Some (p_toDataURL P {| width := videoWidth v; height := videoHeight v;
                           drawn := rendered cap |}).
Proof.
  intros Hc Hv Hx.
  destruct (geo_cells_of_trace P C t) as (_ & _ & _ & Hl).
  cbv zeta in Hl |- *. rewrite Hl, Hc.
  unfold CameraCapture.handleCapture. rewrite Hv, Hx. split; reflexivity.
Qed.

Lemma capture_stamps_latest_fix_witness :
  In (FillText (lit "Lat: 1.00000") 10 460)
     (rendered (CameraCapture.handleCapture Coarse.platform Coarse.camera
        (location (run Coarse.platform Coarse.center mounted
           [PositionOk (of_Z 1) (of_Z 1); ClickRetry; PositionFailed])))).
Proof.
  destruct (capture_stamps_latest_fix Coarse.platform Coarse.center
              [PositionOk (of_Z 1) (of_Z 1); ClickRetry; PositionFailed]
              Coarse.camera {| videoWidth := 640; videoHeight := 480 |}
              {| lat := of_Z 1; lon := of_Z 1 |} eq_refl eq_refl eq_refl)
    as [Hr _].
  cbv zeta in Hr. rewrite Hr. vm_compute. tauto.
Defined.

(** X9: the image list never holds more images than there were clicks on
    Capture Photo since the page was loaded: a click adds at most one image
    and nothing else adds any. *)
Theorem images_bounded_by_clicks (P : Platform) (C : Coord) (t : list event) :
  (List.length (images (run P C mounted t)) <= capture_clicks t)%nat.
Proof.
  unfold capture_clicks.
  induction t as [|e t IH] using rev_ind.
  - cbn. apply Nat.le_refl.
  - rewrite run_snoc, rev_app_distr. cbn [rev app].
    set (s := run P C mounted t) in *.
    destruct e as [ | la lo | | i v | v | env | | ];
      cbn [capture_clicks_from]; try exact IH.
    + destruct i; exact IH.
    + cbn [step]. destruct (CameraCapture.capture_disabled (location s)); [lia|].
      destruct (captured (CameraCapture.handleCapture P env (location s)))
        as [img|]; [|lia].
      rewrite handleCapture_images.
      destruct (truthy img && startsWith img (lit "data:image")); [|lia].
      rewrite length_app. cbn [List.length]. lia.
    + cbn [step]. destruct (submit_disabled s); exact IH.
    + cbn. apply Nat.le_refl.
Qed.

(** ** Positions that are not numbers *)

Lemma fsub_non_finite (x y : number) :
  is_finite x && is_finite y = false -> is_finite (fsub y x) = false.
Proof.
  destruct x as [sx|[|]| |sx mx ex], y as [sy|[|]| |sy my ey];
    cbn; intro H; try discriminate; reflexivity.
Qed.

Lemma toRad_half_non_finite (d : number) :
  is_finite d = false ->
  is_finite (fdiv (fdiv (fmul d PI64) (of_Z 180)) (of_Z 2)) = false.
Proof. destruct d as [s|s| |s m e]; intro H; try discriminate; reflexivity. Qed.

Lemma fmul_nan_r (x : number) : fmul x NaN = NaN.
Proof. destruct x; reflexivity. Qed.

Lemma fadd_nan_r (x : number) : fadd x NaN = NaN.
Proof. destruct x; reflexivity. Qed.

Section NotANumber.
Variable P : Platform.
Hypothesis Hsin : sin_non_finite P.
Hypothesis Hatan : atan2_nan P.

Lemma half_sine_non_finite (x y : number) :
  is_finite x && is_finite y = false -> half_sine P (fsub y x) = NaN.
Proof.
  intro H. unfold half_sine. apply Hsin, toRad_half_non_finite, fsub_non_finite.
  exact H.
Qed.

Lemma distance_non_finite (lat1 lon1 lat2 lon2 : number) :
  is_finite lat1 && is_finite lon1 && is_finite lat2 && is_finite lon2 = false ->
  distance P lat1 lon1 lat2 lon2 = NaN.
Proof.
  intro H.
  assert (Ha : haversine_a (H := binary64 P) lat1 lon1 lat2 lon2 = NaN).
  { unfold haversine_a, toRad. cbv zeta.
    cbn [add sub mul div int Math_PI Math_sin Math_cos binary64].
    fold (half_sine P (fsub lat2 lat1)). fold (half_sine P (fsub lon2 lon1)).
    destruct (is_finite lat1 && is_finite lat2) eqn:Elat.
    - assert (Elon : is_finite lon1 && is_finite lon2 = false).
      { apply andb_true_iff in Elat. destruct Elat as [E1 E2].
        rewrite E1, E2 in H. cbn in H.
        destruct (is_finite lon1); [exact H | reflexivity]. }
      rewrite (half_sine_non_finite lon1 lon2 Elon).
      rewrite !fmul_nan_r. apply fadd_nan_r.
    - rewrite (half_sine_non_finite lat1 lat2 Elat). reflexivity. }
  unfold distance, haversine. cbv zeta. rewrite Ha.
  cbn [add sub mul div int Math_sqrt Math_atan2 binary64].
  rewrite Hatan by reflexivity. reflexivity.
Qed.

End NotANumber.

(** X10: if the latitude or longitude of the position or of the configured
    centre is NaN or infinite, the distance is NaN on every platform whose
    sine and arctangent treat such arguments as ECMA-262 requires; the
    success callback then lowers the flag and Submit is disabled. *)
Theorem non_finite_position_outside
    (P : Platform) (C : Coord) (la lo : number) (s : FormState) :
  sin_non_finite P -> atan2_nan P ->
  is_finite la && is_finite lo && is_finite (lat C) && is_finite (lon C) = false ->
  distance P la lo (lat C) (lon C) = NaN /\
  geoAllowed (onPosition P C la lo s) = false /\
  submit_disabled (onPosition P C la lo s) = true.
Proof.
  intros Hsin Hatan H.
  pose proof (distance_non_finite P Hsin Hatan la lo (lat C) (lon C) H) as E.
  unfold onPosition. cbv zeta. rewrite E. repeat split.
Qed.

Lemma coarse_sin_non_finite : sin_non_finite Coarse.platform.
Proof. intros [s|s| |s m e] H; try discriminate; reflexivity. Qed.

Lemma coarse_atan2_nan : atan2_nan Coarse.platform.
Proof.
  intros y x H. cbn [p_atan2 Coarse.platform]. unfold Coarse.atan2.
  destruct y as [sy|sy| |sy my ey], x as [sx|sx| |sx mx ex];
    try discriminate; reflexivity.
Qed.

Lemma non_finite_position_outside_witness :
  geoAllowed
    (onPosition Coarse.platform {| lat := NaN; lon := pos_zero |}
       pos_zero pos_zero mounted) = false.
Proof.
  apply (non_finite_position_outside Coarse.platform
           {| lat := NaN; lon := pos_zero |} pos_zero pos_zero mounted
           coarse_sin_non_finite coarse_atan2_nan eq_refl).
Defined.

(** ** The range of the formula in exact arithmetic *)

Lemma exact_atan2_first_quadrant (y x : R) :
  (0 <= y)%R -> (0 <= x)%R -> (0 <= Exact.atan2 y x <= PI / 2)%R.
Proof.
  intros Hy Hx. unfold Exact.atan2. pose proof PI_RGT_0 as Hpi.
  destruct (Rlt_dec 0 x) as [Hpos|Hnpos].
  - pose proof (atan_bound (y / x)) as [_ Hub].
    split; [|lra].
    assert (Hq : (0 <= y / x)%R).
    { unfold Rdiv. apply Rmult_le_pos; [exact Hy|].
      left. apply Rinv_0_lt_compat. exact Hpos. }
    destruct Hq as [Hq|Hq].
    + left. rewrite <- atan_0. apply atan_increasing. exact Hq.
    + rewrite <- Hq, atan_0. lra.
  - destruct (Rlt_dec x 0) as [Hneg|_]; [lra|].
    destruct (Rlt_dec 0 y) as [_|_]; [lra|].
    destruct (Rlt_dec y 0) as [Hny|_]; lra.
Qed.

Lemma exact_a_range (lat1 lon1 lat2 lon2 : R) :
  (0 <= haversine_a (H := Exact.reals) lat1 lon1 lat2 lon2 <= 1)%R.
Proof.
  unfold haversine_a, toRad. cbv zeta.
  cbn [add sub mul div int Math_PI Math_sin Math_cos Exact.reals].
  set (p1 := (lat1 * PI / 180)%R). set (p2 := (lat2 * PI / 180)%R).
  replace ((lat2 - lat1) * PI / 180)%R with (p2 - p1)%R by (unfold p1, p2; field).
  set (w := sin ((lon2 - lon1) * PI / 180 / 2)).
  set (h := sin ((p2 - p1) / 2)).
  assert (Hh : (cos (p2 - p1) = 1 - 2 * h * h)%R).
  { replace (p2 - p1)%R with (2 * ((p2 - p1) / 2))%R at 1 by field.
    apply cos_2a_sin. }
  assert (Hk : (2 * (cos p1 * cos p2) = cos (p2 - p1) + cos (p2 + p1))%R).
  { rewrite cos_minus, cos_plus. ring. }
  pose proof (COS_bound (p2 - p1)) as [HD1 HD2].
  pose proof (COS_bound (p2 + p1)) as [HS1 HS2].
  pose proof (SIN_bound ((lon2 - lon1) * PI / 180 / 2)) as [Hw1 Hw2].
  fold w in Hw1, Hw2.
  set (D := cos (p2 - p1)) in *. set (S := cos (p2 + p1)) in *.
  set (k := (cos p1 * cos p2)%R) in *.
  assert (Hs0 : (0 <= w * w)%R) by nra.
  assert (Hs1 : (w * w <= 1)%R) by nra.
  set (q := (w * w)%R) in *.
  replace (k * w * w)%R with (k * q)%R by (unfold q; ring).
  assert (Ha : (h * h + k * q = (1 - D) * (1 - q) / 2 + q * (1 + S) / 2)%R) by nra.
  assert (Hb : (1 - (h * h + k * q) = (1 + D) * (1 - q) / 2 + q * (1 - S) / 2)%R)
    by nra.
  split; nra.
Qed.

(** X11: read in exact arithmetic, the quantity [a] of [haversine] lies
    between 0 and 1 for all four arguments, in or out of the ranges of
    latitude and longitude, so that neither square root is taken of a
    negative number; the distance lies between 0 and [6371000 * PI], half
    the circumference of the sphere. *)
Theorem exact_distance_range (lat1 lon1 lat2 lon2 : R) :
  (0 <= haversine_a (H := Exact.reals) lat1 lon1 lat2 lon2 <= 1)%R /\
  (0 <= haversine (H := Exact.reals) lat1 lon1 lat2 lon2 <= 6371000 * PI)%R.
Proof.
  pose proof (exact_a_range lat1 lon1 lat2 lon2) as Ha.
  split; [exact Ha|].
  unfold haversine, R_earth. cbv zeta.
  cbn [add sub mul div int Math_sqrt Math_atan2 Exact.reals].
  set (a := haversine_a lat1 lon1 lat2 lon2) in *.
  pose proof (exact_atan2_first_quadrant (sqrt a) (sqrt (1 - a))
                (sqrt_pos a) (sqrt_pos (1 - a))) as Hq.
  set (r := Exact.atan2 (sqrt a) (sqrt (1 - a))) in *.
  pose proof PI_RGT_0. split; nra.
Qed.

(** ** The camera session *)

Lemma camera_invariant_mount : CameraSession.invariant CameraSession.mount.
Proof.
  unfold CameraSession.invariant. cbn.
  repeat split; try reflexivity; try lia; try discriminate.
  left. reflexivity.
Qed.

Ltac camera_cases :=
  repeat split; intros;
  try assumption; try reflexivity; try lia; try congruence;
  try (left; reflexivity); try (right; split; reflexivity).

Lemma camera_invariant_step (i : CameraSession.Instance) (e : CameraSession.event) :
  CameraSession.invariant i -> CameraSession.invariant (CameraSession.step i e).
Proof.
  destruct i as [[st er cap] so cl al pe rq sp].
  unfold CameraSession.invariant. cbn.
  intros Hinv. pose proof Hinv as (Hs & Hc & Hr & Hp & Hf & Ht & H1 & He & Ha).
  destruct e as [|m| |]; cbn.
  - unfold CameraSession.shows_open_button. cbn.
    destruct al, cap; cbn; try exact Hinv.
    destruct (Hf eq_refl) as (-> & -> & ->). subst sp. rewrite Hc.
    assert (pe = O) by lia. subst pe. camera_cases. apply Ha. reflexivity.
  - destruct pe as [|pe]; cbn; [exact Hinv|].
    assert (Hrq : rq = 1%nat) by lia. assert (Hpe : pe = O) by lia. subst rq pe.
    destruct cap; [|destruct (Hf eq_refl) as (E & _); discriminate].
    destruct (H1 eq_refl) as (-> & ->).
    destruct al; cbn; [unfold CameraSession.shows_video; cbn|]; camera_cases.
  - destruct pe as [|pe]; cbn; [exact Hinv|].
    assert (Hrq : rq = 1%nat) by lia. assert (Hpe : pe = O) by lia. subst rq pe.
    destruct cap; [|destruct (Hf eq_refl) as (E & _); discriminate].
    destruct (H1 eq_refl) as (-> & ->).
    destruct al; cbn; camera_cases.
    apply Ha. reflexivity.
  - destruct al; cbn; [|exact Hinv].
    subst sp. rewrite Hc. cbn. intuition discriminate.
Qed.

Lemma camera_invariant_run (t : list CameraSession.event) :
  CameraSession.invariant (CameraSession.run t).
Proof.
  unfold CameraSession.run.
  induction t as [|e t IH] using rev_ind.
  - exact camera_invariant_mount.
  - rewrite fold_left_app. cbn [fold_left]. apply camera_invariant_step. exact IH.
Qed.

Lemma camera_step_keeps_capturing (i : CameraSession.Instance) (e : CameraSession.event) :
  CameraSession.capturing (CameraSession.cells i) = true ->
  CameraSession.capturing (CameraSession.cells (CameraSession.step i e)) = true.
Proof.
  destruct i as [[st er cap] so cl al pe rq sp]. cbn. intros ->.
  destruct e as [|m| |]; cbn.
  - unfold CameraSession.shows_open_button. cbn. rewrite andb_false_r. reflexivity.
  - destruct pe; cbn; [reflexivity|]. destruct al; cbn; [|reflexivity].
    unfold CameraSession.shows_video. cbn. reflexivity.
  - destruct pe; cbn; [reflexivity|]. destruct al; reflexivity.
  - destruct al; reflexivity.
Qed.

(** X12: in every session [getUserMedia] is called at most once, namely
    when Open Live Camera is pressed; [capturing] never returns to false,
    so the Open button does not come back and a camera that was denied is
    not asked for again. *)
Theorem camera_asked_once (t t' : list CameraSession.event) :
  let i := CameraSession.run t in
  (CameraSession.requested i <= 1)%nat /\
  (CameraSession.requested i = 1%nat <->
   CameraSession.capturing (CameraSession.cells i) = true) /\
  implb (CameraSession.capturing (CameraSession.cells i))
        (CameraSession.capturing (CameraSession.cells (CameraSession.run (t ++ t'))))
    = true /\
  implb (CameraSession.capturing (CameraSession.cells i))
        (negb (CameraSession.shows_open_button (CameraSession.run (t ++ t'))))
    = true.
Proof.
  intro i.
  destruct (camera_invariant_run t) as (_ & _ & Hr & _ & Hf & Ht & _).
  fold i in Hr, Hf, Ht.
  assert (Hmono : CameraSession.capturing (CameraSession.cells i) = true ->
                  CameraSession.capturing
                    (CameraSession.cells (CameraSession.run (t ++ t'))) = true).
  { intro Hc. unfold CameraSession.run. rewrite fold_left_app.
    fold (CameraSession.run t). fold i.
    revert Hc. generalize i. clear.
    induction t' as [|e t' IH]; intros i Hc; [exact Hc|].
    cbn [fold_left]. apply IH. apply camera_step_keeps_capturing. exact Hc. }
  split; [exact Hr|]. split; [|split].
  - split; [|exact Ht].
    intro E. destruct (CameraSession.capturing (CameraSession.cells i)) eqn:Ec;
      [reflexivity|]. destruct (Hf eq_refl) as (E0 & _). lia.
  - destruct (CameraSession.capturing (CameraSession.cells i)); [|reflexivity].
    cbn. apply Hmono. reflexivity.
  - destruct (CameraSession.capturing (CameraSession.cells i)); [|reflexivity].
    cbn. unfold CameraSession.shows_open_button.
    rewrite (Hmono eq_refl). cbn. rewrite andb_false_r. reflexivity.
Qed.

(** X13: the cleanup of the camera effect never stops a track.  It reads
    the [stream] of the render in which the effect ran, which is null: the
    effect runs again only when [capturing] changes, and the stream is set
    afterwards.  A granted stream is therefore still running when the
    component is unmounted. *)
Theorem camera_tracks_never_stopped (t : list CameraSession.event) (m : CameraSession.MediaStream) :
  CameraSession.stopped (CameraSession.run t) = [] /\
  (let i := CameraSession.run
              [CameraSession.ClickOpen; CameraSession.MediaGranted m] in
   CameraSession.stream (CameraSession.cells i) = Some m /\
   CameraSession.srcObject i = Some m /\
   CameraSession.cleanup i = Some []) /\
  (let i := CameraSession.run
              [CameraSession.ClickOpen; CameraSession.MediaGranted m;
               CameraSession.Unmount] in
   CameraSession.alive i = false /\ CameraSession.stopped i = []).
Proof.
  split; [exact (proj1 (camera_invariant_run t))|].
  split; cbn; repeat split.
Qed.

(** X14: in every session the error text is empty or is the camera message,
    and in the latter case no stream is held; while the component is mounted
    the video element shows exactly the stream held.  After a denial the
    video element and the Capture Photo button stay rendered, without a
    stream. *)
Theorem camera_error_or_stream (t : list CameraSession.event) :
  let i := CameraSession.run t in
  (CameraSession.error (CameraSession.cells i) = [] \/
   CameraSession.error (CameraSession.cells i) = CameraSession.cameraDeniedMessage /\
   CameraSession.stream (CameraSession.cells i) = None) /\
  (if CameraSession.alive i
   then CameraSession.srcObject i = CameraSession.stream (CameraSession.cells i)
   else True) /\
  (let d := CameraSession.run [CameraSession.ClickOpen; CameraSession.MediaDenied] in
   CameraSession.error (CameraSession.cells d) = CameraSession.cameraDeniedMessage /\
   CameraSession.srcObject d = None /\
   CameraSession.shows_video d = true).
Proof.
  intro i.
  destruct (camera_invariant_run t) as (_ & _ & _ & _ & _ & _ & _ & He & Ha).
  fold i in He, Ha.
  split; [exact He|]. split.
  - destruct (CameraSession.alive i); [apply Ha; reflexivity | exact I].
  - cbn. repeat split.
Qed.

(** X15: a click on Capture Photo while the video has no frame yet (width
    or height 0) adds no image: the canvas has no pixels, its data URL is
    ["data:,"], and [handleCapture] of the form rejects it. *)
Theorem capture_without_frame_adds_nothing
    (P : Platform) (C : Coord) (env : CameraEnv) (v : Video) (s : FormState) :
  empty_canvas_url P ->
  videoRef env = Some v ->
  videoWidth v = 0 \/ videoHeight v = 0 ->
  step P C s (ClickCapture env) = s.
Proof.
  intros Hurl Hv Hz. cbn [step].
  destruct (CameraCapture.capture_disabled (location s)) eqn:Ed; [reflexivity|].
  unfold CameraCapture.handleCapture. rewrite Hv.
  destruct (location s) as [l|]; [|reflexivity].
  destruct (has_context env); [|reflexivity].
  cbn [captured]. rewrite Hurl by exact Hz. reflexivity.
Qed.

Lemma coarse_empty_canvas_url : empty_canvas_url Coarse.platform.
Proof.
  intros c [H|H]; cbn [p_toDataURL Coarse.platform]; unfold Coarse.toDataURL;
    rewrite H; [reflexivity|]. rewrite orb_true_r. reflexivity.
Qed.

Lemma capture_without_frame_adds_nothing_witness :
  let env := {| videoRef := Some {| videoWidth := 0; videoHeight := 0 |};
                has_context := true;
                now_text := lit "1/1/2025, 12:00:00 PM" |} in
  let s := run Coarse.platform Coarse.center mounted [PositionOk pos_zero pos_zero] in
  images (step Coarse.platform Coarse.center s (ClickCapture env)) = [].
Proof.
  intros env s.
  rewrite (capture_without_frame_adds_nothing Coarse.platform Coarse.center env
             {| videoWidth := 0; videoHeight := 0 |} s
             coarse_empty_canvas_url eq_refl (or_introl eq_refl)).
  reflexivity.
Defined.
